(** * defang-schemes: the defanging algorithm and its safety checks

    A shallow embedding of [DefangScheme] (package [defang_schemes]) and of
    the two registry checks of [tools/defangcheck/main.go], with the
    properties of the rule set stated and proved over the embedding.

    Go strings are byte sequences: they are modelled by [string] (a list of
    8-bit [ascii] values), [len] counts bytes, and the conversions
    [[]rune(s)] and [string(runes)] are the UTF-8 decoder and encoder of
    the Go runtime.  Output on stdout and [os.Exit] are modelled by a small
    writer-and-exit monad [proc]. *)

From Stdlib Require Import ZArith Ascii String List Bool Lia Permutation.
From stdpp Require Import base strings list gmap.

Open Scope Z_scope.

(* ================================================================== *)
(** ** Go strings, bytes and runes *)

(** A rune is an [int32] code point. *)
Definition rune : Type := Z.

Definition byte_val (c : ascii) : Z := Z.of_N (N_of_ascii c).
Definition byte_chr (b : Z) : ascii := ascii_of_N (Z.to_N b).

(** [len(s)]: the number of bytes of [s]. *)
Definition len (s : string) : Z := Z.of_nat (String.length s).

Module utf8.

Definition RuneError : rune := 0xFFFD.
Definition MaxRune : rune := 0x10FFFF.

Definition between (lo hi b : Z) : bool := (lo <=? b) && (b <=? hi).

(** Length of the sequence announced by a leading byte; [0] for a byte
    that cannot start a sequence (0x80-0xC1 and 0xF5-0xFF). *)
Definition seq_len (b0 : Z) : nat :=
  if b0 <? 0x80 then 1%nat
  else if between 0xC2 0xDF b0 then 2%nat
  else if between 0xE0 0xEF b0 then 3%nat
  else if between 0xF0 0xF4 b0 then 4%nat
  else 0%nat.

(** The range accepted for the second byte depends on the first. *)
Definition accept (b0 b1 : Z) : bool :=
  between (if b0 =? 0xE0 then 0xA0 else if b0 =? 0xF0 then 0x90 else 0x80)
          (if b0 =? 0xED then 0x9F else if b0 =? 0xF4 then 0x8F else 0xBF)
          b1.

Definition cont (b : Z) : bool := between 0x80 0xBF b.

Definition low6 (b : Z) : Z := Z.land b 0x3F.

(** [[]rune(s)]: every well-formed sequence gives its code point, every
    other byte gives [RuneError] and is skipped alone. *)
Fixpoint decode (s : string) : list rune :=
  match s with
  | EmptyString => []
  | String c0 t0 =>
      let b0 := byte_val c0 in
      let invalid := RuneError :: decode t0 in
      match seq_len b0, t0 with
      | 1%nat, _ => b0 :: decode t0
      | 2%nat, String c1 t1 =>
          let b1 := byte_val c1 in
          if accept b0 b1
          then Z.lor (Z.shiftl (Z.land b0 0x1F) 6) (low6 b1) :: decode t1
          else invalid
      | 3%nat, String c1 (String c2 t2) =>
          let b1 := byte_val c1 in
          let b2 := byte_val c2 in
          if accept b0 b1 && cont b2
          then Z.lor (Z.shiftl (Z.land b0 0x0F) 12)
                 (Z.lor (Z.shiftl (low6 b1) 6) (low6 b2)) :: decode t2
          else invalid
      | 4%nat, String c1 (String c2 (String c3 t3)) =>
          let b1 := byte_val c1 in
          let b2 := byte_val c2 in
          let b3 := byte_val c3 in
          if accept b0 b1 && cont b2 && cont b3
          then Z.lor (Z.shiftl (Z.land b0 0x07) 18)
                 (Z.lor (Z.shiftl (low6 b1) 12)
                    (Z.lor (Z.shiftl (low6 b2) 6) (low6 b3))) :: decode t3
          else invalid
      | _, _ => invalid
      end
  end.

Definition bytes (bs : list Z) : string :=
  fold_right (λ b s, String (byte_chr b) s) EmptyString bs.

Definition tail6 (r : rune) (k : Z) : Z :=
  Z.lor 0x80 (low6 (Z.shiftr r k)).

(** The bytes of one rune; surrogates and values outside [0, MaxRune]
    are written as [RuneError]. *)
Definition encode_rune (r : rune) : string :=
  if between 0 0x7F r then bytes [r]
  else if between 0 0x7FF r then
    bytes [Z.lor 0xC0 (Z.shiftr r 6); tail6 r 0]
  else
    let r := if (r <? 0) || (MaxRune <? r) || between 0xD800 0xDFFF r
             then RuneError else r in
    if r <=? 0xFFFF then
      bytes [Z.lor 0xE0 (Z.shiftr r 12); tail6 r 6; tail6 r 0]
    else
      bytes [Z.lor 0xF0 (Z.shiftr r 18); tail6 r 12; tail6 r 6; tail6 r 0].

(** [string(runes)] *)
Fixpoint encode (rs : list rune) : string :=
  match rs with
  | [] => EmptyString
  | r :: rs' => encode_rune r +:+ encode rs'
  end.

End utf8.

(* ================================================================== *)
(** ** Standard output and process exit *)

Definition dquote : string := String "034"%char EmptyString.
Definition newline : string := String "010"%char EmptyString.

Inductive level : Type := INFO | WARN | ERROR.

(** The lines the library and the check tool can print, one constructor
    per [fmt.Printf]/[fmt.Println] call site. *)
Inductive message : Type :=
| UnhandledLength1 (scheme : string)
| OnlyPermanent
| CheckingNotValid
| HttpDefangsToValid
| StillValid (defanged : string)
| CheckingOneToOne
| HttpDefangsToHxxp
| Duplicated (defanged : string) (offenders : list string).

Definition level_of (m : message) : level :=
  match m with
  | UnhandledLength1 _ | StillValid _ | Duplicated _ _ => ERROR
  | OnlyPermanent | HttpDefangsToValid | HttpDefangsToHxxp => WARN
  | CheckingNotValid | CheckingOneToOne => INFO
  end.

(** [strings.Join(elems, sep)] *)
Fixpoint Join (elems : list string) (sep : string) : string :=
  match elems with
  | [] => EmptyString
  | [e] => e
  | e :: rest => e +:+ sep +:+ Join rest sep
  end.

(** The text of each line, as the format strings give it. *)
Definition render (m : message) : string :=
  match m with
  | UnhandledLength1 scheme =>
      "[ERROR] Unhandled scheme " +:+ dquote +:+ scheme +:+ dquote
        +:+ " of length 1 in defang algorithm" +:+ newline
  | OnlyPermanent =>
      "[WARN] Only checking validity of permanent URI schemes" +:+ newline
  | CheckingNotValid =>
      "[INFO] Checking that the defang algorithm does not produce any valid schemes"
        +:+ newline
  | HttpDefangsToValid =>
      "[WARN] HTTP[S] defangs into a valid (albeit provisional) scheme.  Given that this is a common defang method, we will allow this"
        +:+ newline
  | StillValid defanged =>
      "[ERROR] Defanged scheme " +:+ dquote +:+ defanged +:+ dquote
        +:+ " is still a valid scheme" +:+ newline
  | CheckingOneToOne =>
      "[INFO] Checking that the defang algorithm is (kind of) invertible"
        +:+ newline
  | HttpDefangsToHxxp =>
      "[WARN] HTTP[S] defanges into HXXP[S], which are valid (albeit provisional) schemes.  Given that these are provisional, we will allow this edge case"
        +:+ newline
  | Duplicated defanged offenders =>
      "[ERROR] Defanged scheme " +:+ dquote +:+ defanged +:+ dquote
        +:+ " is duplicated, meaning that re-fanging would be ambiguous due to the following offenders: "
        +:+ Join offenders ", " +:+ newline
  end.

(** How a run ends: the function returns a value, or the process has
    exited with a status code. *)
Inductive outcome (A : Type) : Type :=
| Returned (a : A)
| Exited (code : Z).
Arguments Returned {A} a.
Arguments Exited {A} code.

(** A computation: the lines printed, in order, and the way it ended. *)
Definition proc (A : Type) : Type := list message * outcome A.

#[global] Instance proc_ret : MRet proc := λ A a, ([], Returned a).

#[global] Instance proc_bind : MBind proc := λ A B f m,
  match m with
  | (out, Returned a) => let '(out', r) := f a in (out ++ out', r)
  | (out, Exited code) => (out, Exited code)
  end.

Definition Printf (m : message) : proc unit := ([m], Returned tt).
Definition Exit {A : Type} (code : Z) : proc A := ([], Exited code).

Definition stdout {A : Type} (p : proc A) : list message := p.1.
Definition result {A : Type} (p : proc A) : outcome A := p.2.

Definition is_level (l : level) (m : message) : bool :=
  match l, level_of m with
  | INFO, INFO | WARN, WARN | ERROR, ERROR => true
  | _, _ => false
  end.

Definition warnings {A : Type} (p : proc A) : list message :=
  List.filter (is_level WARN) (stdout p).
Definition errors {A : Type} (p : proc A) : list message :=
  List.filter (is_level ERROR) (stdout p).

(* ================================================================== *)
(** ** The defanging algorithm *)

(** The pattern the algorithm matches has the form [[cs]+], a non-empty
    run of characters of a class; such a pattern is modelled by the list of
    the characters of its class.  The class holds 7-bit characters only,
    which never occur inside a multi-byte sequence, so matching runes and
    matching bytes agree and the bytes outside a match are copied as they
    are. *)
Module regexp.

Definition Regexp : Type := list ascii.

Definition in_class (re : Regexp) (c : ascii) : bool :=
  existsb (Ascii.eqb c) re.

(** [re.MatchString(s)]: some run of class characters occurs in [s]. *)
Fixpoint MatchString (re : Regexp) (s : string) : bool :=
  match s with
  | EmptyString => false
  | String c t => in_class re c || MatchString re t
  end.

(** One left-to-right scan; [run] is the match in progress.  Matching is
    greedy, so a match ends only at a character outside the class or at
    the end of the input. *)
Fixpoint scan (re : Regexp) (repl : string → string) (run : string) (s : string)
  : string :=
  let flush := match run with EmptyString => EmptyString | _ => repl run end in
  match s with
  | EmptyString => flush
  | String c t =>
      if in_class re c
      then scan re repl (run +:+ String c EmptyString) t
      else flush +:+ String c (scan re repl EmptyString t)
  end.

(** [re.ReplaceAllStringFunc(src, repl)] *)
Definition ReplaceAllStringFunc (re : Regexp) (src : string) (repl : string → string)
  : string :=
  scan re repl EmptyString src.

End regexp.

(** As well as [a-z], these characters are allowed in URI schemes. *)
Definition ADDITIONAL_ALLOWED_SCHEME_CHARS : list ascii :=
  ["-"%char; "+"%char; "."%char].

Definition additionalAllowedSchemeCharsPattern : regexp.Regexp :=
  ADDITIONAL_ALLOWED_SCHEME_CHARS.

Definition ADDITIONAL_ALLOWED_SCHEME_CHARS_PATTERN : regexp.Regexp :=
  additionalAllowedSchemeCharsPattern.

(** Within [s], replace the runes at [positions] by [replacement];
    [assignInRange] is the body of the loop, which skips a position outside
    the rune slice. *)
Definition assignInRange (replacement : rune) (runes : list rune) (pos : Z)
  : list rune :=
  if (0 <=? pos) && (pos <? Z.of_nat (length runes))
  then <[Z.to_nat pos := replacement]> runes
  else runes.

Definition replaceAtPositions (s : string) (positions : list Z) (replacement : rune)
  : string :=
  let runes := utf8.decode s in
  let runes := fold_left (assignInRange replacement) positions runes in
  utf8.encode runes.

Definition rune_x : rune := byte_val "x"%char.

Definition defangAtPositions (s : string) (positions : list Z) : string :=
  replaceAtPositions s positions rune_x.

Definition bracket (m : string) : string := "[" +:+ m +:+ "]".

Definition DefangScheme (scheme : string) : proc string :=
  (* Case 0: check for (hopefully invalid) scheme of length 1 *)
  (if len scheme =? 1
   then Printf (UnhandledLength1 scheme) ;; Exit 1
   else mret tt) ;;
  (* Case 1: well-defined base case *)
  if String.eqb scheme "http" || String.eqb scheme "https" then
    mret (defangAtPositions scheme [1; 2])
  (* Case 2: classical defanging of additional characters *)
  else if regexp.MatchString ADDITIONAL_ALLOWED_SCHEME_CHARS_PATTERN scheme then
    mret (regexp.ReplaceAllStringFunc
            ADDITIONAL_ALLOWED_SCHEME_CHARS_PATTERN scheme bracket)
  (* Case 3: for 3-letter schemes, remove the middle one *)
  else if len scheme =? 3 then
    mret (defangAtPositions scheme [1])
  (* Case 4: for 2-letter schemes, defang the second character *)
  else if len scheme =? 2 then
    mret (defangAtPositions scheme [1])
  (* Case 5: for 4-letter schemes, defang the third letter *)
  else if len scheme =? 4 then
    mret (defangAtPositions scheme [2])
  (* Default case *)
  else
    mret (defangAtPositions scheme [1; 2]).

(* ================================================================== *)
(** ** The registry and its safety checks *)

Inductive Status : Type := Permanent | Provisional | Historical.

#[global] Instance Status_eq_dec : EqDecision Status.
Proof. solve_decision. Defined.

(** The fields of the [Scheme] struct that the checks read; the remaining
    ones (template, description, reference, notes) are descriptive text. *)
Record Scheme : Type := mkScheme {
  Scheme_Scheme : string;
  Scheme_DefangedScheme : string;
  Scheme_Status : Status;
}.

(** tools/writeconsts: the registry entry of a scheme name holds its
    defanged form as [DefangScheme] computes it.  A registry is built from
    the rows of the scheme table, whose names are distinct; the order of
    the list stands for the order in which the entries are later visited. *)
Definition newScheme (record : string * Status) : proc Scheme :=
  defanged ← DefangScheme record.1;
  mret {| Scheme_Scheme := record.1;
          Scheme_DefangedScheme := defanged;
          Scheme_Status := record.2 |}.

Fixpoint loadRegistry (records : list (string * Status)) : proc (list Scheme) :=
  match records with
  | [] => mret []
  | record :: rest =>
      scheme ← newScheme record;
      schemes ← loadRegistry rest;
      mret (scheme :: schemes)
  end.

(** Importantly, confirm that a defanged scheme is not still a valid scheme *)
Fixpoint defangedSchemeIsKnown (scheme : Scheme) (knownSchemes : list Scheme) : bool :=
  match knownSchemes with
  | [] => false
  | knownScheme :: rest =>
      if String.eqb (Scheme_DefangedScheme scheme) (Scheme_Scheme knownScheme)
      then true
      else defangedSchemeIsKnown scheme rest
  end.

(** The known edge case, as both checks test it on the record at hand. *)
Definition knownEdgeCase (scheme : Scheme) : bool :=
  String.eqb (Scheme_Scheme scheme) "http"
  || String.eqb (Scheme_Scheme scheme) "hxxp"
  || String.eqb (Scheme_Scheme scheme) "https"
  || String.eqb (Scheme_Scheme scheme) "hxxps".

(** The loop of [defangedSchemesAreNotValid]: [schemes] is the whole
    slice, [todo] what is left to visit, [http_warned] the local flag. *)
Fixpoint notValidLoop (schemes : list Scheme) (http_warned : bool)
    (todo : list Scheme) : proc unit :=
  match todo with
  | [] => mret tt
  | scheme :: todo' =>
      if defangedSchemeIsKnown scheme schemes then
        if knownEdgeCase scheme then
          if negb http_warned then
            Printf HttpDefangsToValid ;;
            notValidLoop schemes true todo'
          else notValidLoop schemes http_warned todo'
        else
          Printf (StillValid (Scheme_DefangedScheme scheme)) ;;
          Exit 1
      else notValidLoop schemes http_warned todo'
  end.

(** Confirm that no defanged schemes are known! *)
Definition defangedSchemesAreNotValid (schemes : list Scheme) : proc unit :=
  Printf CheckingNotValid ;;
  notValidLoop schemes false schemes.

(** The inner loop that collects the duplicate schemes for logging. *)
Fixpoint duplicateSchemes (defanged : string) (schemes : list Scheme) : list string :=
  match schemes with
  | [] => []
  | scheme1 :: rest =>
      if String.eqb (Scheme_DefangedScheme scheme1) defanged
      then Scheme_Scheme scheme1 :: duplicateSchemes defanged rest
      else duplicateSchemes defanged rest
  end.

(** The loop of [defangedSchemesAreOneToOne]; [seenDefangedSchemes] is the
    [map[string]struct{}] used as a set. *)
Fixpoint oneToOneLoop (schemes : list Scheme) (http_warned : bool)
    (seenDefangedSchemes : gset string) (todo : list Scheme) : proc unit :=
  match todo with
  | [] => mret tt
  | scheme :: todo' =>
      let defanged := Scheme_DefangedScheme scheme in
      let seen' := {[ defanged ]} ∪ seenDefangedSchemes in
      if bool_decide (defanged ∈ seenDefangedSchemes) then
        if knownEdgeCase scheme then
          if negb http_warned then
            Printf HttpDefangsToHxxp ;;
            oneToOneLoop schemes true seen' todo'
          else oneToOneLoop schemes http_warned seen' todo'
        else
          Printf (Duplicated defanged (duplicateSchemes defanged schemes)) ;;
          Exit 1
      else oneToOneLoop schemes http_warned seen' todo'
  end.

(** Confirm that there exists a one-to-one mapping between a scheme and
    its defanged variant *)
Definition defangedSchemesAreOneToOne (schemes : list Scheme) : proc unit :=
  Printf CheckingOneToOne ;;
  oneToOneLoop schemes false ∅ schemes.

(** Perform safety checks on defang algorithm: the two checks, in order. *)
Definition verify (schemes : list Scheme) : proc unit :=
  defangedSchemesAreNotValid schemes ;;
  defangedSchemesAreOneToOne schemes.

(** The entry point of the check tool; [SchemeMap] is given as the list of
    its values in the order the map iteration yields them. *)
Definition main (SchemeMap : list Scheme) : proc unit :=
  let schemes := SchemeMap in
  Printf OnlyPermanent ;;
  let permanentSchemes :=
    List.filter (λ scheme, bool_decide (Scheme_Status scheme = Permanent)) schemes in
  verify permanentSchemes.

(* ================================================================== *)
(** ** Vocabulary of the statements *)

(** [s[p]], when [p] is a valid byte index of [s]. *)
Definition char_at (s : string) (p : Z) : option ascii :=
  if 0 <=? p then String.get (Z.to_nat p) s else None.

(** Scheme tokens are 7-bit: letters, digits and the three extra
    characters.  [is_ascii s] holds when every byte of [s] is below 0x80. *)
Fixpoint is_ascii (s : string) : bool :=
  match s with
  | EmptyString => true
  | String c t => (byte_val c <? 0x80) && is_ascii t
  end.

(** A scheme contains one of the reserved extra characters. *)
Definition has_reserved (s : string) : bool :=
  regexp.MatchString ADDITIONAL_ALLOWED_SCHEME_CHARS_PATTERN s.

Definition reserved (c : ascii) : bool :=
  regexp.in_class ADDITIONAL_ALLOWED_SCHEME_CHARS_PATTERN c.

(** The positions that the length-based rules (and the http[s] rule)
    designate for the marker, for a scheme with no reserved character. *)
Definition marker_positions (s : string) : list Z :=
  if String.eqb s "http" || String.eqb s "https" then [1; 2]
  else if len s =? 3 then [1]
  else if len s =? 2 then [1]
  else if len s =? 4 then [2]
  else [1; 2].

(** The byte values of a string. *)
Fixpoint codes (s : string) : list Z :=
  match s with
  | EmptyString => []
  | String c t => byte_val c :: codes t
  end.

(** Every character of [r] belongs to the class. *)
Fixpoint all_in_class (re : regexp.Regexp) (r : string) : bool :=
  match r with
  | EmptyString => true
  | String c t => regexp.in_class re c && all_in_class re t
  end.

(** [s] is empty or begins with a character outside the class: a run that
    ends where [s] begins cannot be extended. *)
Definition starts_outside (re : regexp.Regexp) (s : string) : bool :=
  match s with
  | EmptyString => true
  | String c _ => negb (regexp.in_class re c)
  end.

(** [Wrapped re s t]: [t] is [s] with every maximal run of characters of
    the class [re] put between square brackets and every other character
    copied. *)
Inductive Wrapped (re : regexp.Regexp) : string → string → Prop :=
| Wrapped_end : Wrapped re EmptyString EmptyString
| Wrapped_copy c s t :
    regexp.in_class re c = false →
    Wrapped re s t →
    Wrapped re (String c s) (String c t)
| Wrapped_run r s t :
    r ≠ EmptyString →
    all_in_class re r = true →
    starts_outside re s = true →
    Wrapped re s t →
    Wrapped re (r +:+ s) ("[" +:+ r +:+ "]" +:+ t).

(** Runes of the 7-bit range. *)
Definition ascii_runes (rs : list rune) : Prop :=
  Forall (λ r, 0 <= r < 0x80) rs.

(** A run reports at most one error, and an error ends the run. *)
Definition stops_at_first_error (p : proc unit) : Prop :=
  (result p = Returned tt ∧ errors p = []) ∨
  (∃ out e, stdout p = out ++ [e] ∧ level_of e = ERROR ∧
            List.filter (is_level ERROR) out = [] ∧ result p = Exited 1).

(* ------------------------------------------------------------------ *)
(** *** Registries used as examples *)

(** The four schemes of the documented exception. *)
Definition quadruple : list (string * Status) :=
  [("http", Permanent); ("https", Permanent);
   ("hxxp", Permanent); ("hxxps", Permanent)].

(** The registry of the four schemes, as [loadRegistry] builds it. *)
Definition quadrupleRegistry : list Scheme :=
  [ mkScheme "http" "hxxp" Permanent; mkScheme "https" "hxxps" Permanent;
    mkScheme "hxxp" "hxxp" Permanent; mkScheme "hxxps" "hxxps" Permanent ].

(** What a run over the four schemes does, in whatever order the
    registry yields them. *)
Definition quadruple_run (records : list (string * Status)) : Prop :=
  ∃ schemes,
    loadRegistry records = ([], Returned schemes) ∧
    result (verify schemes) = Returned tt ∧
    errors (verify schemes) = [] ∧
    warnings (verify schemes) = [HttpDefangsToValid; HttpDefangsToHxxp].

(** A registry in which every record breaks the first check. *)
Definition collidingRegistry : list Scheme :=
  [ mkScheme "ab" "ax" Permanent; mkScheme "ax" "ax" Permanent;
    mkScheme "cd" "cx" Permanent; mkScheme "cx" "cx" Permanent ].

(** Three invented schemes with one defanged form. *)
Definition ambiguousRegistry : list Scheme :=
  [ mkScheme "abcde" "axxde" Permanent; mkScheme "aqqde" "axxde" Permanent;
    mkScheme "azzde" "axxde" Permanent ].

(** ["hxap"] is an invented scheme whose defanged form is ["hxxp"], the
    defanged form of ["http"]. *)
Definition leakingRegistry : list Scheme :=
  [ mkScheme "hxap" "hxxp" Permanent; mkScheme "http" "hxxp" Permanent ].

(* ================================================================== *)
(** ** The scheme pattern *)

(** The word characters [\w] of the regular-expression syntax. *)
Definition word_chars : list ascii :=
  list_ascii_of_string
    "0123456789ABCDEFGHIJKLMNOPQRSTUVWXYZ_abcdefghijklmnopqrstuvwxyz".

(** Construct scheme pattern to use in validation/cleaning step: the class
    of the word characters and of the additional allowed characters. *)
Definition schemePattern : regexp.Regexp :=
  word_chars ++ ADDITIONAL_ALLOWED_SCHEME_CHARS.

Definition SCHEME_PATTERN : regexp.Regexp := schemePattern.

(* ------------------------------------------------------------------ *)
(** *** More vocabulary *)

(** [s] is a scheme token: it matches [SCHEME_PATTERN] from its first
    byte to its last. *)
Definition is_token (s : string) : bool :=
  negb (String.eqb s EmptyString) && all_in_class SCHEME_PATTERN s.

(** The byte [c] occurs in [s]. *)
Fixpoint occurs (c : ascii) (s : string) : bool :=
  match s with
  | EmptyString => false
  | String d t => Ascii.eqb d c || occurs c t
  end.

(** [s] without its square brackets. *)
Fixpoint unbracket (s : string) : string :=
  match s with
  | EmptyString => EmptyString
  | String c t =>
      if Ascii.eqb c "["%char || Ascii.eqb c "]"%char
      then unbracket t
      else String c (unbracket t)
  end.

(** The number of maximal runs of class characters in [s]; [inside] tells
    whether the byte before [s] belongs to a run. *)
Fixpoint count_runs (re : regexp.Regexp) (inside : bool) (s : string) : nat :=
  match s with
  | EmptyString => 0%nat
  | String c t =>
      if regexp.in_class re c
      then ((if inside then 0 else 1) + count_runs re true t)%nat
      else count_runs re false t
  end.

(** The names both checks treat as the known edge case. *)
Definition edge_names : list string := ["http"; "hxxp"; "https"; "hxxps"].

(** A position that is a valid index of the rune slice. *)
Definition in_range (runes : list rune) (pos : Z) : Prop :=
  0 <= pos < Z.of_nat (length runes).

#[global] Instance in_range_dec runes pos : Decision (in_range runes pos).
Proof. unfold in_range. apply _. Defined.

(** The record [r] repeats a defanged form that is in the set [seen] or
    belongs to one of the records [before] it. *)
Definition repeats (seen : gset string) (before : list Scheme) (r : Scheme) : Prop :=
  Scheme_DefangedScheme r ∈ seen ∨
  Scheme_DefangedScheme r ∈ Scheme_DefangedScheme <$> before.

(* ================================================================== *)
(** ** The dump tool: Python literals for the registry *)

From stdpp Require pretty.

(** Text written to standard output, line by line, for the functions that
    print free text. *)
Definition io (A : Type) : Type := list string * outcome A.

(** [strings.Map] over the bytes of a 7-bit string. *)
Fixpoint map_bytes (f : ascii → ascii) (s : string) : string :=
  match s with
  | EmptyString => EmptyString
  | String c t => String (f c) (map_bytes f t)
  end.

Definition is_lower (c : ascii) : bool :=
  (byte_val "a"%char <=? byte_val c) && (byte_val c <=? byte_val "z"%char).

Definition is_upper (c : ascii) : bool :=
  (byte_val "A"%char <=? byte_val c) && (byte_val c <=? byte_val "Z"%char).

Definition upper_byte (c : ascii) : ascii :=
  if is_lower c then byte_chr (byte_val c - 32) else c.

Definition lower_byte (c : ascii) : ascii :=
  if is_upper c then byte_chr (byte_val c + 32) else c.

(** [strings.ToUpper] and [strings.ToLower]: a string of 7-bit bytes is
    mapped byte by byte; any other string goes through the case tables of
    the [unicode] package, which are not part of this repository and are
    taken as the parameter [unicodeCase]. *)
Definition ToUpper (unicodeCase : string → string) (s : string) : string :=
  if is_ascii s then map_bytes upper_byte s else unicodeCase s.

Definition ToLower (unicodeCase : string → string) (s : string) : string :=
  if is_ascii s then map_bytes lower_byte s else unicodeCase s.

(** [re.ReplaceAllString(input, "${1}_${2}")] for the pattern
    [([a-z])([A-Z])]: an underscore is put between a lower-case letter
    and the upper-case letter that follows it.  A match takes both
    letters, and the search goes on after the second. *)
Fixpoint camelReplaceAllString (input : string) : string :=
  match input with
  | EmptyString => EmptyString
  | String c1 t1 =>
      match t1 with
      | String c2 t2 =>
          if is_lower c1 && is_upper c2
          then String c1 (String "_"%char (String c2 (camelReplaceAllString t2)))
          else String c1 (camelReplaceAllString t1)
      | EmptyString => String c1 EmptyString
      end
  end.

(** [strings.ReplaceAll(s, " ", "_")] *)
Definition spacesToUnderscores (s : string) : string :=
  map_bytes (λ c, if Ascii.eqb c " "%char then "_"%char else c) s.

(** For formatting "constant" variables in Python *)
Definition toScreamingSnake (unicodeCase : string → string) (input : string)
  : string :=
  let snake := camelReplaceAllString input in
  let snake := spacesToUnderscores snake in
  ToUpper unicodeCase snake.

(** [strings.Repeat(s, count)] *)
Fixpoint Repeat (s : string) (count : nat) : string :=
  match count with
  | O => EmptyString
  | S n => s +:+ Repeat s n
  end.

Definition maxLineLength : Z := 79.
Definition indentNumber : nat := 4.

(** [fmt.Sprintf("\"%s\",", str)] *)
Definition quoted (str : string) : string :=
  dquote +:+ str +:+ dquote +:+ ",".

(** The variables of the loop of [constructPyList]. *)
Record listState : Type := mkListState {
  lines : list string;
  currentLine : string;
  currentLineLength : Z;
}.

(** One iteration of the loop of [constructPyList]. *)
Definition pyListStep (st : listState) (str : string) : listState :=
  let strStr := quoted str in
  (* New line if the addition will go over the maximum line length *)
  let st :=
    if currentLineLength st + len strStr >? maxLineLength
    then mkListState (lines st ++ [currentLine st]) EmptyString 0
    else st in
  (* Add indent to each new line *)
  let st :=
    if len (currentLine st) =? 0
    then mkListState (lines st)
           (currentLine st +:+ Repeat " " indentNumber)
           (Z.of_nat indentNumber)
    else st in
  (* Add space between elements of the list *)
  let st :=
    if len (currentLine st) >? 0
    then mkListState (lines st) (currentLine st +:+ " ") (currentLineLength st + 1)
    else st in
  (* Add the element to the current line *)
  mkListState (lines st) (currentLine st +:+ strStr)
    (currentLineLength st + len strStr).

(** The lines of the list literal: the loop, then the final line. *)
Definition pyListLines (strs : list string) : list string :=
  let st := fold_left pyListStep strs (mkListState [] EmptyString 0) in
  if len (currentLine st) >? 0
  then lines st ++ [currentLine st]
  else lines st.

(** Create a string that can be pasted into Python *)
Definition constructPyList (unicodeCase : string → string)
    (strs : list string) (varName : string) : string :=
  let lines := pyListLines strs in
  let varName := toScreamingSnake unicodeCase varName in
  varName +:+ " = [" +:+ newline +:+ Join lines newline +:+ newline +:+ "]".

Definition constructPySchemeList (unicodeCase : string → string)
    (schemes : list Scheme) (varName : string) : string :=
  let rawSchemes := Scheme_Scheme <$> schemes in
  constructPyList unicodeCase rawSchemes varName.

(** The line of one key-value pair:
    [fmt.Sprintf("%s\"%s\": \"%s\",", indent, key, value)]. *)
Definition pyDictLine (key value : string) : string :=
  Repeat " " indentNumber +:+ dquote +:+ key +:+ dquote +:+ ": "
    +:+ dquote +:+ value +:+ dquote +:+ ",".

(** The loop of [constructPyDict]: [i] is the index of the first key of
    [keys]; reading [values[i]] outside the slice is a run-time panic,
    which ends the process with status 2. *)
Fixpoint pyDictLines (i : nat) (keys values : list string)
  : outcome (list string) :=
  match keys with
  | [] => Returned []
  | key :: keys' =>
      match values !! i with
      | None => Exited 2
      | Some value =>
          match pyDictLines (S i) keys' values with
          | Returned lines => Returned (pyDictLine key value :: lines)
          | Exited code => Exited code
          end
      end
  end.

Definition pyDictLengthError (keys values : list string) : string :=
  "[ERROR] Keys and values must be the same length: keys length = "
    +:+ pretty.pretty (length keys) +:+ ", values length = "
    +:+ pretty.pretty (length values) +:+ newline.

Definition constructPyDict (unicodeCase : string → string)
    (keys values : list string) (varName : string) : io string :=
  if negb (length keys =? length values)%nat then
    ([pyDictLengthError keys values], Exited 1)
  else
    match pyDictLines 0 keys values with
    | Exited code => ([], Exited code)
    | Returned lines =>
        let varName := toScreamingSnake unicodeCase varName in
        ([], Returned (varName +:+ " = {" +:+ newline +:+ Join lines newline
                         +:+ newline +:+ "}"))
    end.

Definition constructPyDefangSchemeDict (unicodeCase : string → string)
    (schemes : list Scheme) (varName : string) : io string :=
  let rawSchemes := Scheme_Scheme <$> schemes in
  let defangedSchemes := Scheme_DefangedScheme <$> schemes in
  constructPyDict unicodeCase rawSchemes defangedSchemes varName.

(** The line that holds the elements [group]: the indent, then a space and
    the quoted element for each. *)
Definition lineOf (group : list string) : string :=
  Repeat " " indentNumber +:+
  fold_right (λ str rest, " " +:+ quoted str +:+ rest) EmptyString group.

(** The empty line that opens the literal when the very first element
    does not fit on a line. *)
Definition leadingLine (strs : list string) : list string :=
  match strs with
  | str :: _ =>
      if len (quoted str) >? maxLineLength then [EmptyString] else []
  | [] => []
  end.

(** What the loop of [constructPyList] keeps true after the elements
    [processed]: the closed lines hold the groups of elements already
    laid out, the open line holds the group [cur], and the counter is the
    length of the open line. *)
Definition listInvariant (processed : list string) (st : listState) : Prop :=
  ∃ groups cur,
    processed = concat groups ++ cur ∧
    Forall (λ g, g ≠ []) groups ∧
    lines st = leadingLine processed ++ (lineOf <$> groups) ∧
    currentLineLength st = len (currentLine st) ∧
    ((processed = [] ∧ currentLine st = EmptyString) ∨
     (cur ≠ [] ∧ currentLine st = lineOf cur)).

(** Every byte of [s] satisfies [p]. *)
Fixpoint forall_bytes (p : ascii → bool) (s : string) : bool :=
  match s with
  | EmptyString => true
  | String c t => p c && forall_bytes p t
  end.

(** A byte a screaming-snake name may hold: neither a lower-case letter
    nor a space. *)
Definition screaming (c : ascii) : bool :=
  negb (is_lower c) && negb (Ascii.eqb c " "%char).

(* ================================================================== *)
(** ** The table rows of the generator (tools/writeconsts) *)

Module writeconsts.

(** A row of the scheme table as it is scraped: seven columns of text.
    The status is kept as the text of its column. *)
Record Scheme : Type := mkScheme {
  Scheme_Scheme : string;
  Scheme_Template : string;
  Scheme_Description : string;
  Scheme_Status : string;
  Scheme_WellKnownUriSupport : string;
  Scheme_Reference : string;
  Scheme_Notes : string;
}.

(** The body of the loop of [cleanNulls], for one field. *)
Definition nullToEmpty (field : string) : string :=
  if String.eqb field "-" then EmptyString else field.

(** Every field is of kind string and can be set: a field that holds
    ["-"] is emptied. *)
Definition cleanNulls (scheme : Scheme) : Scheme :=
  {| Scheme_Scheme := nullToEmpty (Scheme_Scheme scheme);
     Scheme_Template := nullToEmpty (Scheme_Template scheme);
     Scheme_Description := nullToEmpty (Scheme_Description scheme);
     Scheme_Status := nullToEmpty (Scheme_Status scheme);
     Scheme_WellKnownUriSupport := nullToEmpty (Scheme_WellKnownUriSupport scheme);
     Scheme_Reference := nullToEmpty (Scheme_Reference scheme);
     Scheme_Notes := nullToEmpty (Scheme_Notes scheme) |}.

(** The white space [\s] of the regular-expression syntax. *)
Definition is_space (c : ascii) : bool :=
  Ascii.eqb c "009"%char || Ascii.eqb c "010"%char || Ascii.eqb c "012"%char
  || Ascii.eqb c "013"%char || Ascii.eqb c " "%char.

(** The longest prefix of bytes that satisfy [p], and what follows it. *)
Fixpoint span (p : ascii → bool) (s : string) : string * string :=
  match s with
  | EmptyString => (EmptyString, EmptyString)
  | String c t =>
      if p c then let '(run, rest) := span p t in (String c run, rest)
      else (EmptyString, s)
  end.

(** [s] without its last byte, and that byte. *)
Fixpoint unsnoc (s : string) : option (string * ascii) :=
  match s with
  | EmptyString => None
  | String c t =>
      match unsnoc t with
      | None => Some (EmptyString, c)
      | Some (init, last) => Some (String c init, last)
      end
  end.

(** [CLEAN_SCHEME_PATTERN.FindStringSubmatch(s)].  The pattern is, from
    the start of the text to its end: a scheme token (the first group),
    then, optionally, white space and a pair of parentheses around any
    bytes other than a line feed (the second group).  It is anchored at
    both ends and each of its parts can be matched in one way only, so the
    match is the whole text; [None] stands for the nil slice. *)
Definition FindStringSubmatch (s : string) : option (list string) :=
  let '(token, rest) := span (regexp.in_class SCHEME_PATTERN) s in
  if String.eqb token EmptyString then None
  else if String.eqb rest EmptyString then Some [s; token; EmptyString]
  else
    let '(spaces, rest) := span is_space rest in
    if String.eqb spaces EmptyString then None
    else
      match rest with
      | String open inside =>
          match unsnoc inside with
          | Some (notes, close) =>
              if Ascii.eqb open "("%char && Ascii.eqb close ")"%char
                 && negb (occurs "010"%char notes)
              then Some [s; token; notes]
              else None
          | None => None
          end
      | EmptyString => None
      end.

Definition invalidSchemeError (schemeRaw : string) : string :=
  "[ERROR] Invalid scheme for " +:+ dquote +:+ schemeRaw +:+ dquote +:+ newline.

Definition unhandledGroupsError (schemeRaw : string) : string :=
  "[ERROR] Unhandled matching groups in scheme regex for "
    +:+ dquote +:+ schemeRaw +:+ dquote +:+ newline.

Definition setScheme (scheme : Scheme) (name : string) : Scheme :=
  {| Scheme_Scheme := name;
     Scheme_Template := Scheme_Template scheme;
     Scheme_Description := Scheme_Description scheme;
     Scheme_Status := Scheme_Status scheme;
     Scheme_WellKnownUriSupport := Scheme_WellKnownUriSupport scheme;
     Scheme_Reference := Scheme_Reference scheme;
     Scheme_Notes := Scheme_Notes scheme |}.

Definition setNotes (scheme : Scheme) (notes : string) : Scheme :=
  {| Scheme_Scheme := Scheme_Scheme scheme;
     Scheme_Template := Scheme_Template scheme;
     Scheme_Description := Scheme_Description scheme;
     Scheme_Status := Scheme_Status scheme;
     Scheme_WellKnownUriSupport := Scheme_WellKnownUriSupport scheme;
     Scheme_Reference := Scheme_Reference scheme;
     Scheme_Notes := notes |}.

(** Mostly, the URI Scheme field is good, but there is a scheme called
    [shttp (OBSOLETE)], which we need to clean up.  Reading [matches[1]]
    outside the slice would be a run-time panic (status 2). *)
Definition cleanScheme (unicodeCase : string → string) (scheme : Scheme)
  : io Scheme :=
  let scheme := cleanNulls scheme in
  let schemeRaw := Scheme_Scheme scheme in
  match FindStringSubmatch schemeRaw with
  | None => ([invalidSchemeError schemeRaw], Exited 1)
  | Some matches =>
      if (length matches =? 0)%nat then
        ([invalidSchemeError schemeRaw], Exited 1)
      else
        match matches !! 1%nat with
        | None => ([], Exited 2)
        | Some name =>
            (* Set the first match to the URI scheme *)
            let scheme := setScheme scheme name in
            (* If the URI scheme holds additional information, add it to notes *)
            let scheme :=
              match matches !! 2%nat with
              | Some notes =>
                  if negb (String.eqb notes EmptyString)
                  then setNotes scheme notes else scheme
              | None => scheme
              end in
            (* Confirm we don't have any unhandled matching information *)
            if (3 <? length matches)%nat then
              ([unhandledGroupsError schemeRaw], Exited 1)
            else
              (* Ensure scheme is lowercase *)
              let scheme :=
                setScheme scheme (ToLower unicodeCase (Scheme_Scheme scheme)) in
              ([], Returned scheme)
        end
  end.

End writeconsts.

(* ================================================================== *)
(** ** The embedding on sample inputs *)

Example DefangScheme_ar : DefangScheme "ar" = ([], Returned "ax").
Proof. reflexivity. Qed.

Example DefangScheme_z39 : DefangScheme "z39.50r" = ([], Returned "z39[.]50r").
Proof. reflexivity. Qed.

Example DefangScheme_runs :
  DefangScheme "a-+b.c" = ([], Returned "a[-+]b[.]c").
Proof. reflexivity. Qed.

Example replaceAtPositions_hello :
  replaceAtPositions "hello" [1; 2] rune_x = "hxxlo".
Proof. reflexivity. Qed.

(** Outside the 7-bit range [len] counts bytes while the positions count
    runes: the two-byte encoding of U+00E9 is one rune, position 1 is out
    of range and the input comes back as it is. *)
Example DefangScheme_two_byte_rune :
  let s := utf8.bytes [0xC3; 0xA9] in
  len s = 2 ∧ utf8.decode s = [0xE9] ∧ DefangScheme s = ([], Returned s).
Proof. repeat split; reflexivity. Qed.

(* ================================================================== *)
(** ** Bytes, runes and strings *)

Lemma byte_val_range c : 0 <= byte_val c < 256.
Proof.
  unfold byte_val. pose proof (N_ascii_bounded c). lia.
Qed.

Lemma byte_chr_val c : byte_chr (byte_val c) = c.
Proof.
  unfold byte_chr, byte_val. rewrite N2Z.id. apply ascii_N_embedding.
Qed.

Lemma byte_val_chr b : 0 <= b < 256 → byte_val (byte_chr b) = b.
Proof.
  intros Hb. unfold byte_chr, byte_val.
  rewrite N_ascii_embedding by lia. lia.
Qed.

Lemma bytes_codes s : utf8.bytes (codes s) = s.
Proof.
  induction s as [|c t IH]; simpl; [done|].
  by rewrite byte_chr_val, IH.
Qed.

Lemma length_codes s : length (codes s) = String.length s.
Proof. induction s; simpl; congruence. Qed.

Lemma length_bytes l : String.length (utf8.bytes l) = length l.
Proof. induction l; simpl; congruence. Qed.

Lemma decode_ascii s : is_ascii s = true → utf8.decode s = codes s.
Proof.
  induction s as [|c t IH]; [done|].
  cbn [is_ascii]. intros [Hc Ht]%andb_true_iff.
  assert (utf8.seq_len (byte_val c) = 1%nat) as E
    by (unfold utf8.seq_len; by rewrite Hc).
  cbn [utf8.decode codes]. rewrite E. by rewrite IH.
Qed.

Lemma encode_ascii rs : ascii_runes rs → utf8.encode rs = utf8.bytes rs.
Proof.
  induction 1 as [|r rs Hr _ IH]; [done|].
  cbn [utf8.encode]. rewrite IH. unfold utf8.encode_rune, utf8.between.
  destruct (Z.leb_spec 0 r); [|lia].
  destruct (Z.leb_spec r 0x7F); [|lia].
  reflexivity.
Qed.

Lemma codes_ascii s : is_ascii s = true → ascii_runes (codes s).
Proof.
  induction s as [|c t IH]; cbn [is_ascii codes]; [constructor|].
  intros [Hc Ht]%andb_true_iff. constructor; [|by apply IH].
  pose proof (byte_val_range c). lia.
Qed.

Lemma get_bytes l (i : nat) : String.get i (utf8.bytes l) = byte_chr <$> l !! i.
Proof.
  revert i. induction l as [|b l IH]; intros [|i]; simpl; auto.
Qed.

Lemma get_codes s (i : nat) : codes s !! i = byte_val <$> String.get i s.
Proof.
  revert i. induction s as [|c t IH]; intros [|i]; simpl; auto.
Qed.

Lemma get_length s (i : nat) : is_Some (String.get i s) ↔ (i < String.length s)%nat.
Proof.
  revert i. induction s as [|c t IH]; intros [|i]; simpl.
  - split; [intros [? ?]; done | lia].
  - split; [intros [? ?]; done | lia].
  - split; [lia | eauto].
  - rewrite IH. lia.
Qed.

Lemma string_ext s t : (∀ i : nat, String.get i s = String.get i t) → s = t.
Proof.
  revert t. induction s as [|c s IH]; intros [|d t] H.
  - done.
  - specialize (H 0%nat). done.
  - specialize (H 0%nat). done.
  - pose proof (H 0%nat) as H0. simpl in H0. injection H0 as ->.
    f_equal. apply IH. intros i. apply (H (S i)).
Qed.

Lemma char_at_ext s t : (∀ p, char_at s p = char_at t p) → s = t.
Proof.
  intros H. apply string_ext. intros i.
  specialize (H (Z.of_nat i)). unfold char_at in H.
  destruct (Z.leb_spec 0 (Z.of_nat i)) as [E|E]; [|lia].
  by rewrite Nat2Z.id in H.
Qed.

Lemma char_at_is_Some s p : is_Some (char_at s p) ↔ 0 <= p < len s.
Proof.
  unfold char_at, len. destruct (Z.leb_spec 0 p) as [E|E].
  - rewrite get_length. lia.
  - split; [intros [? ?]; done | lia].
Qed.

(* ------------------------------------------------------------------ *)
(** *** The replacement loop *)

Lemma assignInRange_length x l p : length (assignInRange x l p) = length l.
Proof.
  unfold assignInRange.
  destruct ((0 <=? p) && (p <? Z.of_nat (length l))); [apply length_insert|done].
Qed.

Lemma assignInRange_lookup x (l : list rune) p (i : nat) :
  assignInRange x l p !! i =
    if bool_decide (Z.of_nat i = p) then (λ _, x) <$> l !! i else l !! i.
Proof.
  unfold assignInRange.
  destruct ((0 <=? p) && (p <? Z.of_nat (length l))) eqn:E.
  - apply andb_true_iff in E as [E0%Z.leb_le E1%Z.ltb_lt].
    case_bool_decide as Hp.
    + subst p. rewrite Nat2Z.id.
      rewrite list_lookup_insert_eq by lia.
      destruct (lookup_lt_is_Some_2 l i) as [y ->]; [lia|done].
    + rewrite list_lookup_insert_ne by lia. done.
  - case_bool_decide as Hp; [|done].
    subst p. rewrite lookup_ge_None_2; [done|].
    apply andb_false_iff in E as [E%Z.leb_gt|E%Z.ltb_ge]; lia.
Qed.

Lemma fold_assign_length x ps l :
  length (fold_left (assignInRange x) ps l) = length l.
Proof.
  revert l. induction ps as [|p ps IH]; intros l; simpl; [done|].
  by rewrite IH, assignInRange_length.
Qed.

Lemma fold_assign_lookup x ps (l : list rune) (i : nat) :
  fold_left (assignInRange x) ps l !! i =
    if bool_decide (Z.of_nat i ∈ ps) then (λ _, x) <$> l !! i else l !! i.
Proof.
  revert l. induction ps as [|p ps IH]; intros l; cbn [fold_left].
  - rewrite bool_decide_eq_false_2; [done|apply not_elem_of_nil].
  - rewrite IH, assignInRange_lookup.
    destruct (bool_decide_reflect (Z.of_nat i ∈ ps)) as [Hps|Hps];
      destruct (bool_decide_reflect (Z.of_nat i = p)) as [Hp|Hp];
      destruct (bool_decide_reflect (Z.of_nat i ∈ p :: ps)) as [H|H];
      rewrite elem_of_cons in H; try tauto; try done.
    by destruct (l !! i).
Qed.

Lemma assignInRange_ascii l p : ascii_runes l → ascii_runes (assignInRange rune_x l p).
Proof.
  intros Hl. unfold assignInRange.
  destruct ((0 <=? p) && (p <? Z.of_nat (length l))); [|done].
  apply Forall_insert; [done|]. compute. split; [discriminate|reflexivity].
Qed.

Lemma fold_assign_ascii ps l :
  ascii_runes l → ascii_runes (fold_left (assignInRange rune_x) ps l).
Proof.
  revert l. induction ps as [|p ps IH]; intros l Hl; simpl; [done|].
  by apply IH, assignInRange_ascii.
Qed.

(** On a 7-bit string the conversions to and from runes are the identity
    on bytes, so the replacement acts on the bytes themselves. *)
Section SevenBit.

Variable s : string.
Hypothesis Hs : is_ascii s = true.

Lemma defangAtPositions_ascii ps :
  defangAtPositions s ps =
    utf8.bytes (fold_left (assignInRange rune_x) ps (codes s)).
Proof.
  unfold defangAtPositions, replaceAtPositions.
  rewrite (decode_ascii s Hs).
  apply encode_ascii, fold_assign_ascii, codes_ascii, Hs.
Qed.

Lemma defangAtPositions_length ps :
  String.length (defangAtPositions s ps) = String.length s.
Proof.
  rewrite defangAtPositions_ascii.
  by rewrite length_bytes, fold_assign_length, length_codes.
Qed.

(** The output, byte by byte: the marker at the listed positions that lie
    inside the string, the input elsewhere. *)
Lemma char_at_defangAtPositions ps p :
  char_at (defangAtPositions s ps) p =
    if bool_decide (p ∈ ps) then (λ _, "x"%char) <$> char_at s p else char_at s p.
Proof.
  unfold char_at. destruct (Z.leb_spec 0 p) as [E|E].
  - rewrite defangAtPositions_ascii, get_bytes, fold_assign_lookup.
    rewrite Z2Nat.id by lia. rewrite get_codes.
    case_bool_decide.
    + by destruct (String.get (Z.to_nat p) s).
    + destruct (String.get (Z.to_nat p) s); simpl; [|done].
      by rewrite byte_chr_val.
  - by case_bool_decide.
Qed.

End SevenBit.

(* ------------------------------------------------------------------ *)
(** *** The rule chain of [DefangScheme] *)

Lemma proc_left_id {A B : Type} (a : A) (f : A → proc B) : mret a ≫= f = f a.
Proof. unfold mret, mbind, proc_ret, proc_bind. by destruct (f a). Qed.

Lemma eqb_has_reserved s t :
  String.eqb s t = true → has_reserved t = false → has_reserved s = false.
Proof. by intros ->%String.eqb_eq. Qed.

Lemma DefangScheme_length1 s :
  len s = 1 → DefangScheme s = ([UnhandledLength1 s], Exited 1).
Proof.
  intros H. unfold DefangScheme.
  apply Z.eqb_eq in H. by rewrite H.
Qed.

Lemma DefangScheme_marker s :
  len s ≠ 1 → has_reserved s = false →
  DefangScheme s = ([], Returned (defangAtPositions s (marker_positions s))).
Proof.
  intros H Hr. unfold DefangScheme, marker_positions.
  apply Z.eqb_neq in H. rewrite H, proc_left_id.
  fold (has_reserved s). rewrite Hr.
  by repeat match goal with |- context [if ?b then _ else _] => destruct b end.
Qed.

Lemma DefangScheme_reserved s :
  len s ≠ 1 → has_reserved s = true →
  DefangScheme s =
    ([], Returned (regexp.ReplaceAllStringFunc
                     ADDITIONAL_ALLOWED_SCHEME_CHARS_PATTERN s bracket)).
Proof.
  intros H Hr. unfold DefangScheme.
  apply Z.eqb_neq in H. rewrite H, proc_left_id.
  fold (has_reserved s). rewrite Hr.
  destruct (String.eqb s "http") eqn:E1.
  { by rewrite (eqb_has_reserved _ _ E1) in Hr. }
  destruct (String.eqb s "https") eqn:E2.
  { by rewrite (eqb_has_reserved _ _ E2) in Hr. }
  done.
Qed.

(** Every position the rules designate lies inside a scheme of two or
    more bytes. *)
Lemma marker_positions_in_range s p :
  2 <= len s → p ∈ marker_positions s → 0 <= p < len s.
Proof.
  intros Hlen. unfold marker_positions.
  destruct (String.eqb s "http") eqn:E1.
  { apply String.eqb_eq in E1 as ->. cbn [orb].
    rewrite !elem_of_cons, elem_of_nil. compute. intuition (subst; done). }
  destruct (String.eqb s "https") eqn:E2.
  { apply String.eqb_eq in E2 as ->. cbn [orb].
    rewrite !elem_of_cons, elem_of_nil. compute. intuition (subst; done). }
  cbn [orb].
  destruct (Z.eqb_spec (len s) 3); [rewrite list_elem_of_singleton; lia|].
  destruct (Z.eqb_spec (len s) 2); [rewrite list_elem_of_singleton; lia|].
  destruct (Z.eqb_spec (len s) 4); [rewrite list_elem_of_singleton; lia|].
  rewrite !elem_of_cons, elem_of_nil. lia.
Qed.

(* ------------------------------------------------------------------ *)
(** *** Appending strings *)

Lemma app_cons c s t : String c s +:+ t = String c (s +:+ t).
Proof. reflexivity. Qed.

Lemma app_empty_l t : EmptyString +:+ t = t.
Proof. reflexivity. Qed.

Lemma app_empty_r s : s +:+ EmptyString = s.
Proof. induction s as [|c s IH]; [done|]. by rewrite app_cons, IH. Qed.

Lemma app_assoc3 s t u : (s +:+ t) +:+ u = s +:+ t +:+ u.
Proof. induction s as [|c s IH]; [done|]. by rewrite !app_cons, IH. Qed.

Lemma length_append s t :
  String.length (s +:+ t) = (String.length s + String.length t)%nat.
Proof. induction s as [|c s IH]; [done|]. rewrite app_cons. simpl. by rewrite IH. Qed.

Lemma bracket_app r t : bracket r +:+ t = "[" +:+ r +:+ "]" +:+ t.
Proof. unfold bracket. by rewrite !app_assoc3. Qed.

(* ------------------------------------------------------------------ *)
(** *** Bracket wrapping *)

Lemma all_in_class_snoc re run c :
  all_in_class re run = true → regexp.in_class re c = true →
  all_in_class re (run +:+ String c EmptyString) = true.
Proof.
  intros Hrun Hc. induction run as [|d run IH].
  - rewrite app_empty_l. cbn [all_in_class]. by rewrite Hc.
  - rewrite app_cons. cbn [all_in_class] in *.
    apply andb_true_iff in Hrun as [-> Hrun]. by apply IH.
Qed.

(** The scan wraps the pending run and every later run. *)
Lemma scan_Wrapped re run s :
  all_in_class re run = true →
  Wrapped re (run +:+ s) (regexp.scan re bracket run s).
Proof.
  revert run. induction s as [|c t IH]; intros run Hrun.
  - cbn [regexp.scan]. rewrite app_empty_r. destruct run as [|d run].
    + constructor.
    + rewrite <- (app_empty_r (String d run)) at 1.
      rewrite <- (app_empty_r (bracket _)), bracket_app.
      by apply Wrapped_run; [|done|done|constructor].
  - cbn [regexp.scan]. destruct (regexp.in_class re c) eqn:Hc.
    + replace (run +:+ String c t) with ((run +:+ String c EmptyString) +:+ t)
        by (by rewrite app_assoc3).
      by apply IH, all_in_class_snoc.
    + pose proof (IH EmptyString eq_refl) as Ht. rewrite app_empty_l in Ht.
      destruct run as [|d run].
      * rewrite !app_empty_l. by apply Wrapped_copy.
      * rewrite bracket_app.
        apply Wrapped_run; [done|done|by simpl; rewrite Hc|].
        by apply Wrapped_copy.
Qed.

(** The relation determines the output. *)
Lemma run_unique re r r' s s' :
  all_in_class re r = true → all_in_class re r' = true →
  starts_outside re s = true → starts_outside re s' = true →
  r +:+ s = r' +:+ s' → r = r' ∧ s = s'.
Proof.
  revert r'. induction r as [|c r IH]; intros [|c' r'] Hr Hr' Hs Hs' E.
  - done.
  - rewrite app_empty_l, app_cons in E. subst s. simpl in Hs, Hr'.
    apply andb_true_iff in Hr' as [Hc _]. by rewrite Hc in Hs.
  - rewrite app_empty_l, app_cons in E. subst s'. simpl in Hs', Hr.
    apply andb_true_iff in Hr as [Hc _]. by rewrite Hc in Hs'.
  - rewrite !app_cons in E. injection E as -> E.
    simpl in Hr, Hr'.
    apply andb_true_iff in Hr as [_ Hr]. apply andb_true_iff in Hr' as [_ Hr'].
    destruct (IH r' Hr Hr' Hs Hs' E) as [-> ->]. done.
Qed.

Lemma Wrapped_functional re s t1 t2 :
  Wrapped re s t1 → Wrapped re s t2 → t1 = t2.
Proof.
  intros H1. revert t2.
  induction H1 as [|c s t Hc _ IH|r s t Hne Hr Hs _ IH]; intros t2 H2.
  - inversion H2 as [| |r' s' t' Hne' _ _ _ E]; [done|].
    destruct r'; [done|]. by rewrite app_cons in E.
  - inversion H2 as [|c' s' t' _ H2'|r' s' t' Hne' Hr' _ _ E]; subst.
    + f_equal. by apply IH.
    + destruct r' as [|d r']; [done|]. rewrite app_cons in E.
      injection E as -> _. simpl in Hr'.
      apply andb_true_iff in Hr' as [Hd _]. by rewrite Hd in Hc.
  - remember (r +:+ s) as rs eqn:Ers.
    inversion H2 as [E|c' s' t' Hc' _ E|r' s' t' Hne' Hr' Hs' H2' E]; subst.
    + destruct r; [done|]. by rewrite app_cons in E.
    + destruct r as [|d r]; [done|]. rewrite app_cons in E.
      injection E as -> _. simpl in Hr.
      apply andb_true_iff in Hr as [Hd _]. by rewrite Hd in Hc'.
    + destruct (run_unique re r' r s' s Hr' Hr Hs' Hs E) as [-> ->].
      by rewrite (IH _ H2').
Qed.

(** Wrapping never shortens, and lengthens as soon as a run exists. *)
Lemma Wrapped_length re s t :
  Wrapped re s t →
  (String.length s ≤ String.length t)%nat ∧
  (regexp.MatchString re s = true → (String.length s < String.length t)%nat).
Proof.
  induction 1 as [|c s t Hc _ [IH1 IH2]|r s t Hne Hr Hs _ [IH1 IH2]].
  - split; [done|]. by simpl.
  - simpl. split; [lia|]. rewrite Hc. simpl. intros H. specialize (IH2 H). lia.
  - rewrite !length_append. simpl. split; lia.
Qed.

(* ================================================================== *)
(** ** Properties of the defanger *)

(** C8.  The two conventional inputs: [DefangScheme "https"] returns
    ["hxxps"] and [DefangScheme "http"] returns ["hxxp"]; the bytes at
    positions 1 and 2 have become the marker and the others are kept. *)
Theorem C8_http_https :
  DefangScheme "https" = ([], Returned "hxxps") ∧
  DefangScheme "http" = ([], Returned "hxxp").
Proof. split; reflexivity. Qed.

(** C3, as the code has it.  [DefangScheme] prints the length-1 error and
    exits with status 1 exactly when the input has one byte; every other
    input, the empty string included, returns a result and prints
    nothing. *)
Theorem C3_rejects_exactly_length_1 (s : string) :
  match DefangScheme s with
  | (out, Exited code) => len s = 1 ∧ code = 1 ∧ out = [UnhandledLength1 s]
  | (out, Returned _) => len s ≠ 1 ∧ out = []
  end.
Proof.
  destruct (Z.eq_dec (len s) 1) as [H|H].
  - by rewrite (DefangScheme_length1 s H).
  - destruct (has_reserved s) eqn:Hr.
    + by rewrite (DefangScheme_reserved s H Hr).
    + by rewrite (DefangScheme_marker s H Hr).
Qed.

(** C3 fails as stated: the empty string is shorter than two characters
    and is returned, not rejected. *)
Lemma C3_empty_string_is_accepted :
  len "" < 2 ∧ DefangScheme "" = ([], Returned "").
Proof. split; reflexivity. Qed.

(** C10.  A 7-bit scheme of two or more bytes with no reserved character
    whose designated marker positions already hold ['x'] is returned
    unchanged. *)
Theorem C10_fixed_points (s : string) :
  is_ascii s = true →
  2 <= len s →
  has_reserved s = false →
  Forall (λ p, char_at s p = Some "x"%char) (marker_positions s) →
  DefangScheme s = ([], Returned s).
Proof.
  intros Hs Hlen Hr Hx.
  rewrite (DefangScheme_marker s) by (done || lia).
  do 2 f_equal. apply char_at_ext. intros p.
  rewrite (char_at_defangAtPositions _ Hs).
  case_bool_decide as Hp; [|done].
  rewrite Forall_forall in Hx. by rewrite (Hx p Hp).
Qed.

(** In particular the registered schemes [hxxp] and [hxxps] are fixed
    points. *)
Lemma C10_hxxp_hxxps :
  DefangScheme "hxxp" = ([], Returned "hxxp") ∧
  DefangScheme "hxxps" = ([], Returned "hxxps").
Proof.
  split.
  - apply (C10_fixed_points "hxxp"); [reflexivity|vm_compute; discriminate|reflexivity|].
    repeat constructor.
  - apply (C10_fixed_points "hxxps"); [reflexivity|vm_compute; discriminate|reflexivity|].
    repeat constructor.
Defined.

(** C1 fails as stated: ["hxxp"] has four characters and is its own
    defanged form. *)
Lemma C1_hxxp_unchanged :
  2 <= len "hxxp" ∧ DefangScheme "hxxp" = ([], Returned "hxxp").
Proof. split; [vm_compute; discriminate|reflexivity]. Qed.

(** C1, as the code has it.  For a 7-bit scheme of two or more bytes the
    defanged form equals the input exactly when the scheme has no reserved
    character and every designated marker position already holds ['x'];
    in every other case the output differs from the input. *)
Theorem C1_differs_unless_marked (s : string) :
  is_ascii s = true →
  2 <= len s →
  ∃ out, DefangScheme s = ([], Returned out) ∧
    (out = s ↔
       has_reserved s = false ∧
       Forall (λ p, char_at s p = Some "x"%char) (marker_positions s)).
Proof.
  intros Hs Hlen. destruct (has_reserved s) eqn:Hr.
  - eexists. split; [apply DefangScheme_reserved; [lia|done]|].
    split; [|by intros [? _]].
    intros E. exfalso.
    pose proof (scan_Wrapped ADDITIONAL_ALLOWED_SCHEME_CHARS_PATTERN
                  EmptyString s eq_refl) as HW.
    rewrite app_empty_l in HW. apply Wrapped_length in HW as [_ HW].
    specialize (HW Hr). unfold regexp.ReplaceAllStringFunc in E.
    rewrite E in HW. lia.
  - eexists. split; [apply DefangScheme_marker; [lia|done]|].
    split.
    + intros E. split; [done|]. apply Forall_forall. intros p Hp.
      pose proof (char_at_defangAtPositions s Hs (marker_positions s) p) as Hc.
      rewrite E, (bool_decide_eq_true_2 _ Hp) in Hc.
      destruct (proj2 (char_at_is_Some s p)) as [c Hsome].
      { by apply marker_positions_in_range. }
      rewrite Hsome in Hc. simpl in Hc. by rewrite Hsome, Hc.
    + intros [_ Hx]. apply char_at_ext. intros p.
      rewrite (char_at_defangAtPositions _ Hs).
      case_bool_decide as Hp; [|done].
      rewrite Forall_forall in Hx. by rewrite (Hx p Hp).
Qed.

Lemma C1_witness_icap :
  ∃ out, DefangScheme "icap" = ([], Returned out) ∧
    (out = "icap" ↔
       has_reserved "icap" = false ∧
       Forall (λ p, char_at "icap" p = Some "x"%char) (marker_positions "icap")).
Proof.
  apply (C1_differs_unless_marked "icap"); [reflexivity|vm_compute; discriminate].
Defined.

Lemma reserved_iff c :
  reserved c = true ↔ c = "-"%char ∨ c = "+"%char ∨ c = "."%char.
Proof.
  unfold reserved, regexp.in_class, ADDITIONAL_ALLOWED_SCHEME_CHARS_PATTERN,
    additionalAllowedSchemeCharsPattern, ADDITIONAL_ALLOWED_SCHEME_CHARS.
  cbn [existsb]. rewrite !orb_true_iff, !Ascii.eqb_eq. intuition discriminate.
Qed.

Lemma marker_positions_4 s : len s = 4 → s ≠ "http" → marker_positions s = [2].
Proof.
  intros Hlen Hne. unfold marker_positions.
  destruct (String.eqb_spec s "http") as [->|_]; [done|].
  destruct (String.eqb_spec s "https") as [->|_]; [done|].
  by rewrite Hlen.
Qed.

Lemma DefangScheme_4 s :
  is_ascii s = true → len s = 4 → s ≠ "http" → has_reserved s = false →
  ∃ out, DefangScheme s = ([], Returned out) ∧
    len out = 4 ∧
    char_at out 2 = Some "x"%char ∧
    ∀ p, p ≠ 2 → char_at out p = char_at s p.
Proof.
  intros Hs Hlen Hne Hr. eexists. split.
  { rewrite (DefangScheme_marker s) by (done || lia).
    by rewrite (marker_positions_4 s Hlen Hne). }
  split; [|split].
  - unfold len in *. by rewrite (defangAtPositions_length _ Hs).
  - rewrite (char_at_defangAtPositions _ Hs).
    rewrite bool_decide_eq_true_2 by (by apply list_elem_of_singleton).
    destruct (proj2 (char_at_is_Some s 2)) as [c ->]; [lia|done].
  - intros p Hp. rewrite (char_at_defangAtPositions _ Hs).
    by rewrite bool_decide_eq_false_2 by (by rewrite list_elem_of_singleton).
Qed.

(** C7.  A 7-bit scheme of four bytes other than [http], with no reserved
    character, has the byte at position 2 replaced by ['x'] and the bytes
    at positions 0, 1 and 3 kept; hence two such schemes with different
    bytes at position 1 have different defanged forms. *)
Theorem C7_four_letter_rule (s s' : string) :
  is_ascii s = true → len s = 4 → s ≠ "http" → has_reserved s = false →
  is_ascii s' = true → len s' = 4 → s' ≠ "http" → has_reserved s' = false →
  (∃ out, DefangScheme s = ([], Returned out) ∧
     len out = 4 ∧
     char_at out 2 = Some "x"%char ∧
     char_at out 0 = char_at s 0 ∧
     char_at out 1 = char_at s 1 ∧
     char_at out 3 = char_at s 3) ∧
  (char_at s 1 ≠ char_at s' 1 → DefangScheme s ≠ DefangScheme s').
Proof.
  intros Hs Hlen Hne Hr Hs' Hlen' Hne' Hr'.
  destruct (DefangScheme_4 s Hs Hlen Hne Hr) as (out & E & Hl & H2 & Hk).
  destruct (DefangScheme_4 s' Hs' Hlen' Hne' Hr') as (out' & E' & _ & _ & Hk').
  split.
  - exists out. repeat split; try done; apply Hk; lia.
  - intros Hd Heq. rewrite E, E' in Heq. injection Heq as ->.
    apply Hd. rewrite <- (Hk 1), <- (Hk' 1) by lia. done.
Qed.

Lemma C7_icap_imap :
  (∃ out, DefangScheme "icap" = ([], Returned out) ∧
     len out = 4 ∧
     char_at out 2 = Some "x"%char ∧
     char_at out 0 = char_at "icap" 0 ∧
     char_at out 1 = char_at "icap" 1 ∧
     char_at out 3 = char_at "icap" 3) ∧
  (char_at "icap" 1 ≠ char_at "imap" 1 → DefangScheme "icap" ≠ DefangScheme "imap").
Proof.
  apply (C7_four_letter_rule "icap" "imap");
    solve [reflexivity | discriminate].
Defined.

Example DefangScheme_icap_imap :
  DefangScheme "icap" = ([], Returned "icxp") ∧
  DefangScheme "imap" = ([], Returned "imxp").
Proof. split; reflexivity. Qed.

(** C6.  A scheme of two or more bytes, other than [http] and [https],
    that contains a reserved character is returned with every maximal run
    of reserved characters between square brackets and every other byte
    copied: no marker is substituted, whatever the length. *)
Theorem C6_reserved_runs_are_bracketed (s : string) :
  2 <= len s → s ≠ "http" → s ≠ "https" →
  has_reserved s = true →
  ∃ out, DefangScheme s = ([], Returned out) ∧
    Wrapped ADDITIONAL_ALLOWED_SCHEME_CHARS_PATTERN s out.
Proof.
  intros Hlen _ _ Hr. eexists. split.
  - apply DefangScheme_reserved; [lia|done].
  - unfold regexp.ReplaceAllStringFunc.
    rewrite <- (app_empty_l s) at 1. by apply scan_Wrapped.
Qed.

Lemma C6_witness_runs :
  ∃ out, DefangScheme "a-+b.c" = ([], Returned out) ∧
    Wrapped ADDITIONAL_ALLOWED_SCHEME_CHARS_PATTERN "a-+b.c" out.
Proof.
  apply (C6_reserved_runs_are_bracketed "a-+b.c");
    solve [reflexivity | discriminate].
Defined.

(* ================================================================== *)
(** ** Properties of the registry checks *)

(* ------------------------------------------------------------------ *)
(** *** Output and exit *)

Lemma Printf_bind {A : Type} m (k : proc A) :
  (Printf m ;; k) = (m :: stdout k, result k).
Proof. by destruct k. Qed.

Lemma Printf_Exit {A : Type} m : (Printf m ;; Exit 1) = ([m], @Exited A 1).
Proof. reflexivity. Qed.

Lemma result_Printf {A : Type} m (k : proc A) : result (Printf m ;; k) = result k.
Proof. by rewrite Printf_bind. Qed.

Lemma stops_Printf m (k : proc unit) :
  level_of m ≠ ERROR → stops_at_first_error k →
  stops_at_first_error (Printf m ;; k).
Proof.
  intros Hm Hk. rewrite Printf_bind. unfold stops_at_first_error, errors in *.
  cbn [stdout result fst snd] in *.
  assert (is_level ERROR m = false) as Hf
    by (unfold is_level; by destruct (level_of m)).
  destruct Hk as [[Hr He]|(out & e & Ho & Hl & Hf' & Hr)].
  - left. split; [done|]. cbn [List.filter]. by rewrite Hf.
  - right. exists (m :: out), e. rewrite Ho. repeat split; try done.
    cbn [List.filter]. by rewrite Hf.
Qed.

Lemma stops_fatal m :
  level_of m = ERROR → stops_at_first_error (Printf m ;; Exit 1).
Proof. intros Hm. right. by exists [], m. Qed.

Lemma stops_bind (p k : proc unit) :
  stops_at_first_error p → stops_at_first_error k →
  stops_at_first_error (p ;; k).
Proof.
  destruct p as [out [[]|code]], k as [out' r'].
  - intros [[_ He]|(o & e & _ & _ & _ & Hr)] Hk; [|done].
    unfold stops_at_first_error, errors in *. cbn [stdout result fst snd] in *.
    cbn. destruct Hk as [[Hr' He']|(o & e & Ho & Hl & Hf & Hr')].
    + left. split; [done|]. by rewrite List.filter_app, He, He'.
    + right. exists (out ++ o), e. subst out'. rewrite app_assoc.
      repeat split; try done. by rewrite List.filter_app, He, Hf.
  - intros Hp _. exact Hp.
Qed.

Lemma result_bind_fatal (p k : proc unit) :
  stops_at_first_error p → result k = Exited 1 → result (p ;; k) = Exited 1.
Proof.
  destruct p as [out [[]|code]], k as [out' r']; cbn.
  - by intros _ ->.
  - intros [[? _]|(? & ? & _ & _ & _ & ?)] _; done.
Qed.

Lemma warnings_Printf {A : Type} m (k : proc A) :
  warnings (Printf m ;; k) =
    if is_level WARN m then m :: warnings k else warnings k.
Proof. rewrite Printf_bind. reflexivity. Qed.

Lemma warnings_bind (p k : proc unit) :
  ∃ ws, warnings (p ;; k) = warnings p ++ ws ∧ (ws = [] ∨ ws = warnings k).
Proof.
  destruct p as [out [[]|code]], k as [out' r']; unfold warnings; cbn.
  - exists (List.filter (is_level WARN) out').
    split; [apply List.filter_app|by right].
  - exists []. split; [by rewrite app_nil_r|by left].
Qed.

(* ------------------------------------------------------------------ *)
(** *** The offenders of a defanged form *)

Lemma duplicateSchemes_filter d schemes :
  duplicateSchemes d schemes =
    Scheme_Scheme <$> filter (λ r, Scheme_DefangedScheme r = d) schemes.
Proof.
  induction schemes as [|r schemes IH]; [done|].
  cbn [duplicateSchemes].
  destruct (String.eqb_spec (Scheme_DefangedScheme r) d) as [E|E].
  - rewrite filter_cons_True by done. by rewrite fmap_cons, IH.
  - by rewrite filter_cons_False.
Qed.

Lemma duplicateSchemes_app d l1 l2 :
  duplicateSchemes d (l1 ++ l2) = duplicateSchemes d l1 ++ duplicateSchemes d l2.
Proof. by rewrite !duplicateSchemes_filter, filter_app, fmap_app. Qed.

Lemma duplicateSchemes_nonempty d r schemes :
  r ∈ schemes → Scheme_DefangedScheme r = d →
  (1 ≤ length (duplicateSchemes d schemes))%nat.
Proof.
  intros Hr Hd. rewrite duplicateSchemes_filter, length_fmap.
  assert (r ∈ filter (λ r, Scheme_DefangedScheme r = d) schemes) as Hin
    by (by apply list_elem_of_filter).
  destruct (filter _ schemes); [by apply elem_of_nil in Hin|simpl; lia].
Qed.

(* ------------------------------------------------------------------ *)
(** *** The two loops, over a fixed slice of schemes *)

(** Before the first iteration nothing has been seen. *)
Lemma seen_initially x :
  x ∈ (∅ : gset string) ↔ x ∈ Scheme_DefangedScheme <$> ([] : list Scheme).
Proof.
  cbn [fmap list_fmap]. rewrite elem_of_nil. split; [|done].
  intros H. by apply elem_of_empty in H.
Qed.

Section Loops.

Variable schemes : list Scheme.

Lemma notValidLoop_stops http_warned todo :
  stops_at_first_error (notValidLoop schemes http_warned todo).
Proof.
  revert http_warned. induction todo as [|scheme todo IH]; intros w.
  - by left.
  - cbn [notValidLoop].
    destruct (defangedSchemeIsKnown scheme schemes); [|apply IH].
    destruct (knownEdgeCase scheme); [|by apply stops_fatal].
    destruct (negb w); [|apply IH].
    by apply stops_Printf.
Qed.

Lemma notValidLoop_no_Duplicated http_warned todo d offs :
  Duplicated d offs ∉ stdout (notValidLoop schemes http_warned todo).
Proof.
  revert http_warned. induction todo as [|scheme todo IH]; intros w.
  - apply not_elem_of_nil.
  - cbn [notValidLoop].
    destruct (defangedSchemeIsKnown scheme schemes); [|apply IH].
    destruct (knownEdgeCase scheme).
    + destruct (negb w); [|apply IH].
      rewrite Printf_bind. cbn [stdout fst].
      rewrite elem_of_cons. intros [?|?]; [done|by eapply IH].
    + rewrite Printf_Exit. cbn [stdout fst].
      rewrite list_elem_of_singleton. done.
Qed.

Lemma notValidLoop_fatal http_warned todo r :
  r ∈ todo →
  defangedSchemeIsKnown r schemes = true →
  knownEdgeCase r = false →
  result (notValidLoop schemes http_warned todo) = Exited 1.
Proof.
  intros Hin Hk He. revert http_warned.
  induction todo as [|scheme todo IH]; intros w; [by apply elem_of_nil in Hin|].
  cbn [notValidLoop]. apply elem_of_cons in Hin as [<-|Hin].
  - by rewrite Hk, He.
  - destruct (defangedSchemeIsKnown scheme schemes); [|by apply IH].
    destruct (knownEdgeCase scheme); [|done].
    destruct (negb w); [|by apply IH].
    rewrite result_Printf. by apply IH.
Qed.

Lemma oneToOneLoop_stops http_warned seen todo :
  stops_at_first_error (oneToOneLoop schemes http_warned seen todo).
Proof.
  revert http_warned seen. induction todo as [|scheme todo IH]; intros w seen.
  - by left.
  - cbn [oneToOneLoop].
    destruct (bool_decide _); [|apply IH].
    destruct (knownEdgeCase scheme); [|by apply stops_fatal].
    destruct (negb w); [|apply IH].
    by apply stops_Printf.
Qed.

(** The loop invariant of the second check: the set holds the defanged
    forms of the records already visited. *)
Lemma oneToOneLoop_report http_warned seen visited todo d offs :
  schemes = visited ++ todo →
  (∀ x, x ∈ seen ↔ x ∈ Scheme_DefangedScheme <$> visited) →
  Duplicated d offs ∈ stdout (oneToOneLoop schemes http_warned seen todo) →
  offs = duplicateSchemes d schemes ∧ (2 ≤ length offs)%nat.
Proof.
  revert http_warned seen visited.
  induction todo as [|scheme todo IH]; intros w seen visited Hall Hseen.
  { intros H. by apply elem_of_nil in H. }
  assert (∀ x, x ∈ {[Scheme_DefangedScheme scheme]} ∪ seen ↔
               x ∈ Scheme_DefangedScheme <$> (visited ++ [scheme])) as Hseen'.
  { intros x. rewrite fmap_app, elem_of_app, elem_of_union, Hseen.
    rewrite elem_of_singleton. cbn [fmap list_fmap].
    rewrite list_elem_of_singleton. tauto. }
  assert (schemes = (visited ++ [scheme]) ++ todo) as Hall'
    by (by rewrite <- app_assoc).
  cbn [oneToOneLoop].
  destruct (bool_decide_reflect (Scheme_DefangedScheme scheme ∈ seen)) as [Hin|Hin];
    [|by apply IH with (visited := visited ++ [scheme])].
  destruct (knownEdgeCase scheme).
  - destruct (negb w); [|by apply IH with (visited := visited ++ [scheme])].
    rewrite Printf_bind. cbn [stdout fst]. rewrite elem_of_cons.
    intros [?|H]; [done|].
    by apply IH with (visited := visited ++ [scheme]) in H.
  - rewrite Printf_Exit. cbn [stdout fst]. rewrite list_elem_of_singleton.
    intros [= -> ->]. split; [done|].
    apply Hseen, list_elem_of_fmap in Hin as (r' & Hd & Hr').
    rewrite Hall, duplicateSchemes_app, List.length_app.
    pose proof (duplicateSchemes_nonempty _ r' visited Hr' (eq_sym Hd)).
    pose proof (duplicateSchemes_nonempty (Scheme_DefangedScheme scheme)
                  scheme (scheme :: todo) ltac:(left) eq_refl).
    lia.
Qed.

Lemma oneToOneLoop_fatal http_warned seen before r after :
  knownEdgeCase r = false →
  Scheme_DefangedScheme r ∈ seen ∨
    Scheme_DefangedScheme r ∈ Scheme_DefangedScheme <$> before →
  result (oneToOneLoop schemes http_warned seen (before ++ r :: after)) = Exited 1.
Proof.
  intros He. revert http_warned seen.
  induction before as [|scheme before IH]; intros w seen Hd.
  - cbn [app oneToOneLoop]. destruct Hd as [Hd|Hd]; [|by apply elem_of_nil in Hd].
    by rewrite (bool_decide_eq_true_2 _ Hd), He.
  - assert (Scheme_DefangedScheme r ∈ {[Scheme_DefangedScheme scheme]} ∪ seen ∨
            Scheme_DefangedScheme r ∈ Scheme_DefangedScheme <$> before) as Hd'.
    { rewrite fmap_cons, elem_of_cons in Hd. rewrite elem_of_union, elem_of_singleton.
      tauto. }
    cbn [app oneToOneLoop].
    destruct (bool_decide _); [|by apply IH].
    destruct (knownEdgeCase scheme); [|done].
    destruct (negb w); [|by apply IH].
    rewrite result_Printf. by apply IH.
Qed.

(** Each loop prints its warning once: not at all when the flag is set,
    and at most once when it is not. *)
Lemma notValidLoop_warned todo :
  warnings (notValidLoop schemes true todo) = [].
Proof.
  induction todo as [|scheme todo IH]; [done|]. cbn [notValidLoop negb].
  destruct (defangedSchemeIsKnown scheme schemes); [|done].
  by destruct (knownEdgeCase scheme).
Qed.

Lemma notValidLoop_warns_once todo :
  warnings (notValidLoop schemes false todo) = [] ∨
  warnings (notValidLoop schemes false todo) = [HttpDefangsToValid].
Proof.
  induction todo as [|scheme todo IH]; [by left|]. cbn [notValidLoop negb].
  destruct (defangedSchemeIsKnown scheme schemes); [|done].
  destruct (knownEdgeCase scheme); [|by left].
  right. rewrite warnings_Printf. cbn. by rewrite notValidLoop_warned.
Qed.

Lemma oneToOneLoop_warned seen todo :
  warnings (oneToOneLoop schemes true seen todo) = [].
Proof.
  revert seen. induction todo as [|scheme todo IH]; intros seen; [done|].
  cbn [oneToOneLoop negb].
  destruct (bool_decide _); [|done].
  by destruct (knownEdgeCase scheme).
Qed.

Lemma oneToOneLoop_warns_once seen todo :
  warnings (oneToOneLoop schemes false seen todo) = [] ∨
  warnings (oneToOneLoop schemes false seen todo) = [HttpDefangsToHxxp].
Proof.
  revert seen. induction todo as [|scheme todo IH]; intros seen; [by left|].
  cbn [oneToOneLoop negb].
  destruct (bool_decide _); [|done].
  destruct (knownEdgeCase scheme); [|by left].
  right. rewrite warnings_Printf. cbn. by rewrite oneToOneLoop_warned.
Qed.

(** The only error the second loop prints is the ambiguity report. *)
Lemma oneToOneLoop_errors http_warned seen todo e :
  e ∈ stdout (oneToOneLoop schemes http_warned seen todo) →
  level_of e = ERROR →
  ∃ d offs, e = Duplicated d offs.
Proof.
  revert http_warned seen. induction todo as [|scheme todo IH]; intros w seen.
  { intros H. by apply elem_of_nil in H. }
  cbn [oneToOneLoop].
  destruct (bool_decide _); [|apply IH].
  destruct (knownEdgeCase scheme).
  - destruct (negb w); [|apply IH].
    rewrite Printf_bind. cbn [stdout fst]. rewrite elem_of_cons.
    intros [->|H]; [cbn; discriminate|exact (IH _ _ H)].
  - rewrite Printf_Exit. cbn [stdout fst]. rewrite list_elem_of_singleton.
    intros -> _. eauto.
Qed.

End Loops.

(* ------------------------------------------------------------------ *)
(** *** Violations outside the exception are fatal when detected *)

(** A record outside the quadruple whose defanged form is a known scheme
    name makes [verify] fail. *)
Lemma verify_collision_fatal schemes r :
  r ∈ schemes →
  defangedSchemeIsKnown r schemes = true →
  knownEdgeCase r = false →
  result (verify schemes) = Exited 1.
Proof.
  intros Hin Hk He. unfold verify, defangedSchemesAreNotValid.
  pose proof (notValidLoop_fatal schemes false schemes r Hin Hk He) as H.
  rewrite Printf_bind, H. reflexivity.
Qed.

(** A record outside the quadruple that repeats the defanged form of a
    record met before it makes [verify] fail. *)
Lemma verify_ambiguity_fatal schemes before r after :
  schemes = before ++ r :: after →
  knownEdgeCase r = false →
  Scheme_DefangedScheme r ∈ Scheme_DefangedScheme <$> before →
  result (verify schemes) = Exited 1.
Proof.
  intros Hs He Hd. unfold verify. apply result_bind_fatal.
  - apply stops_Printf; [done|]. apply notValidLoop_stops.
  - unfold defangedSchemesAreOneToOne. rewrite result_Printf.
    rewrite Hs at 2. apply oneToOneLoop_fatal; auto.
Qed.

(** In the second check such a record always ends the run with the
    ambiguity report, the offenders being all the records of the
    reported defanged form. *)
Lemma oneToOne_reports_ambiguity schemes before r after :
  schemes = before ++ r :: after →
  knownEdgeCase r = false →
  Scheme_DefangedScheme r ∈ Scheme_DefangedScheme <$> before →
  ∃ out d offs,
    stdout (defangedSchemesAreOneToOne schemes) = out ++ [Duplicated d offs] ∧
    result (defangedSchemesAreOneToOne schemes) = Exited 1 ∧
    offs = Scheme_Scheme <$> filter (λ r', Scheme_DefangedScheme r' = d) schemes.
Proof.
  intros Hs He Hd. unfold defangedSchemesAreOneToOne. rewrite Printf_bind.
  cbn [stdout result fst snd].
  assert (result (oneToOneLoop schemes false ∅ schemes) = Exited 1) as Hr.
  { rewrite Hs at 2. apply oneToOneLoop_fatal; auto. }
  destruct (oneToOneLoop_stops schemes false ∅ schemes)
    as [[Hret _]|(out & e & Ho & Hl & _ & _)]; [congruence|].
  assert (e ∈ stdout (oneToOneLoop schemes false ∅ schemes)) as Hin
    by (rewrite Ho, elem_of_app, list_elem_of_singleton; by right).
  destruct (oneToOneLoop_errors schemes _ _ _ e Hin Hl) as (d & offs & ->).
  exists (CheckingOneToOne :: out), d, offs.
  fold (stdout (oneToOneLoop schemes false ∅ schemes)).
  fold (result (oneToOneLoop schemes false ∅ schemes)).
  rewrite Ho. repeat split; [done|].
  apply (oneToOneLoop_report schemes false ∅ [] schemes) in Hin as [-> _];
    [apply duplicateSchemes_filter|done|apply seen_initially].
Qed.

(** On every registry each check warns at most once. *)
Lemma verify_warns_once_per_check schemes :
  ∃ w1 w2, warnings (verify schemes) = w1 ++ w2 ∧
    (w1 = [] ∨ w1 = [HttpDefangsToValid]) ∧
    (w2 = [] ∨ w2 = [HttpDefangsToHxxp]).
Proof.
  unfold verify.
  destruct (warnings_bind (defangedSchemesAreNotValid schemes)
              (defangedSchemesAreOneToOne schemes)) as (ws & -> & Hws).
  exists (warnings (defangedSchemesAreNotValid schemes)), ws.
  split; [done|]. split.
  - unfold defangedSchemesAreNotValid. rewrite warnings_Printf. cbn.
    apply notValidLoop_warns_once.
  - destruct Hws as [->| ->]; [by left|].
    unfold defangedSchemesAreOneToOne. rewrite warnings_Printf. cbn.
    apply oneToOneLoop_warns_once.
Qed.

(* ------------------------------------------------------------------ *)
(** *** Reporting *)

(** C5, as the code has it.  [verify] stops at the first violation that
    is not exempted: either it returns and no error was printed, or it
    exits with status 1 and the one error it printed is its last line. *)
Theorem C5_verify_stops_at_first_error (schemes : list Scheme) :
  (result (verify schemes) = Returned tt ∧ errors (verify schemes) = []) ∨
  (∃ out e, stdout (verify schemes) = out ++ [e] ∧ level_of e = ERROR ∧
            List.filter (is_level ERROR) out = [] ∧
            result (verify schemes) = Exited 1).
Proof.
  change (stops_at_first_error (verify schemes)). unfold verify.
  apply stops_bind.
  - apply stops_Printf; [done|]. apply notValidLoop_stops.
  - apply stops_Printf; [done|]. apply oneToOneLoop_stops.
Qed.

(** C5 fails as stated: each of the four records of this registry is a
    violation that is not exempted, for two different defanged strings,
    and [verify] reports the first one only. *)
Lemma C5_only_first_violation_reported :
  loadRegistry [("ab", Permanent); ("ax", Permanent); ("cd", Permanent); ("cx", Permanent)]
    = ([], Returned collidingRegistry) ∧
  List.filter
    (λ r, defangedSchemeIsKnown r collidingRegistry && negb (knownEdgeCase r))
    collidingRegistry = collidingRegistry ∧
  errors (verify collidingRegistry) = [StillValid "ax"] ∧
  result (verify collidingRegistry) = Exited 1.
Proof. repeat split; reflexivity. Qed.

(** C9.  Whenever [verify] prints the ambiguity error for a defanged
    string, the offenders it lists are the names of all the records of
    the input that have this defanged form, in input order, and there are
    at least two of them. *)
Theorem C9_ambiguity_report_lists_all_offenders
    (schemes : list Scheme) (d : string) (offs : list string) :
  Duplicated d offs ∈ stdout (verify schemes) →
  offs = Scheme_Scheme <$> filter (λ r, Scheme_DefangedScheme r = d) schemes ∧
  (∀ r, r ∈ schemes → Scheme_DefangedScheme r = d → Scheme_Scheme r ∈ offs) ∧
  (2 ≤ length offs)%nat.
Proof.
  unfold verify, defangedSchemesAreNotValid, defangedSchemesAreOneToOne.
  intros H.
  assert (Duplicated d offs ∈ stdout (oneToOneLoop schemes false ∅ schemes)) as H'.
  { pose proof (notValidLoop_no_Duplicated schemes false schemes d offs) as Hn.
    rewrite !Printf_bind in H. cbn [stdout fst result snd] in H.
    destruct (notValidLoop schemes false schemes) as [o1 [[]|c1]];
      cbn [stdout fst result snd mbind proc_bind] in H, Hn.
    - destruct (oneToOneLoop schemes false ∅ schemes) as [o2 r2].
      cbn [stdout fst] in *.
      rewrite elem_of_app, !elem_of_cons in H.
      destruct H as [[?|?]|[?|?]]; done.
    - rewrite elem_of_cons in H. destruct H as [?|?]; done. }
  apply (oneToOneLoop_report schemes false ∅ [] schemes) in H' as [Ho Hl];
    [|done|apply seen_initially].
  rewrite <- duplicateSchemes_filter. split; [done|]. split; [|done].
  intros r Hr Hd. rewrite Ho, duplicateSchemes_filter.
  apply list_elem_of_fmap. exists r. split; [done|].
  by apply list_elem_of_filter.
Qed.

Lemma C9_three_offenders :
  let offs := ["abcde"; "aqqde"; "azzde"] in
  offs = Scheme_Scheme <$>
           filter (λ r, Scheme_DefangedScheme r = "axxde") ambiguousRegistry ∧
  (∀ r, r ∈ ambiguousRegistry → Scheme_DefangedScheme r = "axxde" →
        Scheme_Scheme r ∈ offs) ∧
  (2 ≤ length offs)%nat.
Proof.
  apply (C9_ambiguity_report_lists_all_offenders ambiguousRegistry "axxde").
  vm_compute. do 2 right. left.
Defined.

Example ambiguousRegistry_loaded :
  loadRegistry [("abcde", Permanent); ("aqqde", Permanent); ("azzde", Permanent)]
    = ([], Returned ambiguousRegistry) ∧
  verify ambiguousRegistry =
    ([CheckingNotValid; CheckingOneToOne;
      Duplicated "axxde" ["abcde"; "aqqde"; "azzde"]], Exited 1).
Proof. split; reflexivity. Qed.

(* ------------------------------------------------------------------ *)
(** *** The http/https exception *)

Lemma quadruple_run_all_orders : Forall quadruple_run (permutations quadruple).
Proof.
  let l := eval vm_compute in (permutations quadruple) in
  change (Forall quadruple_run l).
  repeat (constructor; [eexists; split; [reflexivity|by vm_compute]|]).
  constructor.
Qed.

(** C2, as the code has it.  Over a registry made of exactly [http],
    [https], [hxxp] and [hxxps], in any order, [verify] returns with no
    error and two warnings: each of the two checks prints its own
    one-time warning for the exception. *)
Theorem C2_quadruple_warns_once_per_check (records : list (string * Status)) :
  records ≡ₚ quadruple →
  ∃ schemes,
    loadRegistry records = ([], Returned schemes) ∧
    result (verify schemes) = Returned tt ∧
    errors (verify schemes) = [] ∧
    warnings (verify schemes) = [HttpDefangsToValid; HttpDefangsToHxxp].
Proof.
  intros Hp. symmetry in Hp. apply permutations_Permutation in Hp.
  pose proof quadruple_run_all_orders as H.
  rewrite Forall_forall in H. exact (H records Hp).
Qed.

Lemma C2_witness_quadruple :
  ∃ schemes,
    loadRegistry quadruple = ([], Returned schemes) ∧
    result (verify schemes) = Returned tt ∧
    errors (verify schemes) = [] ∧
    warnings (verify schemes) = [HttpDefangsToValid; HttpDefangsToHxxp].
Proof.
  apply (C2_quadruple_warns_once_per_check quadruple). reflexivity.
Defined.

(** C2 fails as stated: the run over the four schemes prints two
    warnings, not one. *)
Lemma C2_two_warnings :
  loadRegistry quadruple = ([], Returned quadrupleRegistry) ∧
  result (verify quadrupleRegistry) = Returned tt ∧
  length (warnings (verify quadrupleRegistry)) = 2%nat ∧
  length (warnings (verify quadrupleRegistry)) ≠ 1%nat.
Proof. repeat split; (reflexivity || discriminate). Qed.

(** The tool itself adds its unconditional notice, a third warning. *)
Example main_quadruple :
  main quadrupleRegistry =
    ([OnlyPermanent; CheckingNotValid; HttpDefangsToValid;
      CheckingOneToOne; HttpDefangsToHxxp], Returned tt).
Proof. reflexivity. Qed.

(** C4.  The exemption is decided on the record at hand alone, so an
    ambiguity between [http] and a scheme outside the quadruple passes
    with a warning when [http] is visited second, and is fatal when
    [http] is visited first. *)
Theorem C4_exemption_depends_on_order :
  loadRegistry [("hxap", Permanent); ("http", Permanent)] = ([], Returned leakingRegistry) ∧
  verify leakingRegistry =
    ([CheckingNotValid; CheckingOneToOne; HttpDefangsToHxxp], Returned tt) ∧
  verify (reverse leakingRegistry) =
    ([CheckingNotValid; CheckingOneToOne; Duplicated "hxxp" ["http"; "hxap"]],
     Exited 1).
Proof. repeat split; reflexivity. Qed.

(* ================================================================== *)
(** ** Further properties of the replacement *)

Lemma assignInRange_skip x (l : list rune) p :
  ¬ in_range l p → assignInRange x l p = l.
Proof.
  unfold in_range, assignInRange. intros H.
  destruct (Z.leb_spec 0 p); destruct (Z.ltb_spec p (Z.of_nat (length l)));
    simpl; try done. lia.
Qed.

Lemma fold_assign_filter x ps (l : list rune) :
  fold_left (assignInRange x) ps l =
    fold_left (assignInRange x) (filter (in_range l) ps) l.
Proof.
  revert l. induction ps as [|p ps IH]; intros l; [done|].
  cbn [fold_left]. destruct (decide (in_range l p)) as [Hp|Hp].
  - rewrite filter_cons_True by done. cbn [fold_left].
    rewrite IH. f_equal. apply list_filter_iff. intros q.
    unfold in_range. by rewrite assignInRange_length.
  - rewrite filter_cons_False by done. by rewrite (assignInRange_skip _ _ _ Hp).
Qed.

(** X1.  Positions that are negative or not below the number of runes of
    the string are skipped: dropping them from the list of positions does
    not change the result. *)
Theorem X1_positions_out_of_range_are_skipped
    (s : string) (positions : list Z) (replacement : rune) :
  replaceAtPositions s positions replacement =
    replaceAtPositions s (filter (in_range (utf8.decode s)) positions) replacement.
Proof.
  unfold replaceAtPositions. cbv zeta. f_equal. apply fold_assign_filter.
Qed.

Lemma fold_assign_same_set x ps qs (l : list rune) :
  (∀ p, p ∈ ps ↔ p ∈ qs) →
  fold_left (assignInRange x) ps l = fold_left (assignInRange x) qs l.
Proof.
  intros H. apply list_eq. intros i. rewrite !fold_assign_lookup.
  destruct (bool_decide_reflect (Z.of_nat i ∈ ps)) as [Hp|Hp];
    destruct (bool_decide_reflect (Z.of_nat i ∈ qs)) as [Hq|Hq];
    try done; exfalso; by apply H in Hp || apply H in Hq.
Qed.

Lemma replaceAtPositions_same_set s ps qs x :
  (∀ p, p ∈ ps ↔ p ∈ qs) →
  replaceAtPositions s ps x = replaceAtPositions s qs x.
Proof.
  intros H. unfold replaceAtPositions. cbv zeta. f_equal.
  by apply fold_assign_same_set.
Qed.

(** X2.  The result depends on the set of positions only: their order and
    their repetitions do not matter, for any string and any replacement. *)
Theorem X2_positions_as_a_set
    (s : string) (ps qs : list Z) (replacement : rune) :
  (∀ p, p ∈ ps ↔ p ∈ qs) →
  replaceAtPositions s ps replacement = replaceAtPositions s qs replacement.
Proof. apply replaceAtPositions_same_set. Qed.

Lemma X2_witness_order :
  replaceAtPositions "hello" [1; 2] rune_x =
    replaceAtPositions "hello" [2; 1; 2] rune_x.
Proof.
  apply (X2_positions_as_a_set "hello" [1; 2] [2; 1; 2] rune_x).
  intros p. rewrite !elem_of_cons, !elem_of_nil. tauto.
Defined.

(* ------------------------------------------------------------------ *)
(** *** Replacement on 7-bit strings *)

Lemma assignInRange_ascii_any x l p :
  0 <= x < 0x80 → ascii_runes l → ascii_runes (assignInRange x l p).
Proof.
  intros Hx Hl. unfold assignInRange.
  destruct ((0 <=? p) && (p <? Z.of_nat (length l))); [|done].
  by apply Forall_insert.
Qed.

Lemma fold_assign_ascii_any x ps l :
  0 <= x < 0x80 → ascii_runes l →
  ascii_runes (fold_left (assignInRange x) ps l).
Proof.
  intros Hx. revert l. induction ps as [|p ps IH]; intros l Hl; simpl; [done|].
  by apply IH, assignInRange_ascii_any.
Qed.

Lemma codes_bytes l : ascii_runes l → codes (utf8.bytes l) = l.
Proof.
  induction 1 as [|r l Hr _ IH]; [done|]. cbn [utf8.bytes fold_right codes].
  fold (utf8.bytes l). rewrite IH, byte_val_chr by lia. done.
Qed.

Lemma is_ascii_bytes l : ascii_runes l → is_ascii (utf8.bytes l) = true.
Proof.
  induction 1 as [|r l Hr _ IH]; [done|]. cbn [utf8.bytes fold_right is_ascii].
  fold (utf8.bytes l). rewrite IH, byte_val_chr by lia.
  destruct (Z.ltb_spec r 0x80); [done|lia].
Qed.

Section SevenBitReplacement.

Variable s : string.
Variable x : rune.
Hypothesis Hs : is_ascii s = true.
Hypothesis Hx : 0 <= x < 0x80.

Lemma replaceAtPositions_ascii ps :
  replaceAtPositions s ps x =
    utf8.bytes (fold_left (assignInRange x) ps (codes s)).
Proof.
  unfold replaceAtPositions. rewrite (decode_ascii s Hs).
  apply encode_ascii, fold_assign_ascii_any, codes_ascii; done.
Qed.

Lemma replaceAtPositions_is_ascii ps :
  is_ascii (replaceAtPositions s ps x) = true.
Proof.
  rewrite replaceAtPositions_ascii.
  apply is_ascii_bytes, fold_assign_ascii_any, codes_ascii; done.
Qed.

Lemma replaceAtPositions_length ps :
  len (replaceAtPositions s ps x) = len s.
Proof.
  unfold len. rewrite replaceAtPositions_ascii.
  by rewrite length_bytes, fold_assign_length, length_codes.
Qed.

Lemma char_at_replaceAtPositions ps p :
  char_at (replaceAtPositions s ps x) p =
    if bool_decide (p ∈ ps) then (λ _, byte_chr x) <$> char_at s p
    else char_at s p.
Proof.
  unfold char_at. destruct (Z.leb_spec 0 p) as [E|E].
  - rewrite replaceAtPositions_ascii, get_bytes, fold_assign_lookup.
    rewrite Z2Nat.id by lia. rewrite get_codes.
    case_bool_decide.
    + by destruct (String.get (Z.to_nat p) s).
    + destruct (String.get (Z.to_nat p) s); simpl; [|done].
      by rewrite byte_chr_val.
  - by case_bool_decide.
Qed.

End SevenBitReplacement.

(** X3.  On a 7-bit string, with a 7-bit replacement, the result has the
    length of the input, holds the replacement at every listed position
    that lies inside the string and the input byte everywhere else. *)
Theorem X3_replacement_byte_by_byte
    (s : string) (positions : list Z) (replacement : rune) :
  is_ascii s = true →
  0 <= replacement < 0x80 →
  len (replaceAtPositions s positions replacement) = len s ∧
  ∀ p, char_at (replaceAtPositions s positions replacement) p =
         if bool_decide (p ∈ positions ∧ 0 <= p < len s)
         then Some (byte_chr replacement)
         else char_at s p.
Proof.
  intros Hs Hx. split; [by apply replaceAtPositions_length|].
  intros p. rewrite (char_at_replaceAtPositions s replacement Hs Hx).
  destruct (bool_decide_reflect (p ∈ positions)) as [Hp|Hp].
  - destruct (decide (0 <= p < len s)) as [Hr|Hr].
    + rewrite bool_decide_eq_true_2 by done.
      destruct (proj2 (char_at_is_Some s p) Hr) as [c ->]. done.
    + rewrite bool_decide_eq_false_2 by tauto.
      destruct (char_at s p) eqn:E; [|done].
      exfalso. apply Hr, char_at_is_Some. by rewrite E.
  - by rewrite bool_decide_eq_false_2 by tauto.
Qed.

Lemma X3_witness_hello :
  len (replaceAtPositions "hello" [1; 2; 7] rune_x) = len "hello" ∧
  ∀ p, char_at (replaceAtPositions "hello" [1; 2; 7] rune_x) p =
         if bool_decide (p ∈ [1; 2; 7] ∧ 0 <= p < len "hello")
         then Some (byte_chr rune_x)
         else char_at "hello" p.
Proof.
  apply (X3_replacement_byte_by_byte "hello" [1; 2; 7] rune_x);
    [reflexivity|vm_compute; split; [discriminate|reflexivity]].
Defined.

(** X4.  On a 7-bit string, two replacements with the same 7-bit rune
    compose into one over both lists of positions; in particular replacing
    twice at the same positions is replacing once. *)
Theorem X4_replacements_compose
    (s : string) (ps qs : list Z) (replacement : rune) :
  is_ascii s = true →
  0 <= replacement < 0x80 →
  replaceAtPositions (replaceAtPositions s ps replacement) qs replacement =
    replaceAtPositions s (ps ++ qs) replacement ∧
  replaceAtPositions (replaceAtPositions s ps replacement) ps replacement =
    replaceAtPositions s ps replacement.
Proof.
  intros Hs Hx.
  assert (∀ qs',
    replaceAtPositions (replaceAtPositions s ps replacement) qs' replacement =
      replaceAtPositions s (ps ++ qs') replacement) as H.
  { intros qs'.
    rewrite (replaceAtPositions_ascii _ replacement
               (replaceAtPositions_is_ascii s replacement Hs Hx ps) Hx).
    rewrite !(replaceAtPositions_ascii s replacement Hs Hx).
    rewrite codes_bytes by (apply fold_assign_ascii_any, codes_ascii; done).
    by rewrite fold_left_app. }
  split; [apply H|]. rewrite H.
  apply replaceAtPositions_same_set. intros p. rewrite elem_of_app. tauto.
Qed.

Lemma X4_witness_hello :
  replaceAtPositions (replaceAtPositions "hello" [1] rune_x) [2] rune_x =
    replaceAtPositions "hello" ([1] ++ [2]) rune_x ∧
  replaceAtPositions (replaceAtPositions "hello" [1] rune_x) [1] rune_x =
    replaceAtPositions "hello" [1] rune_x.
Proof.
  apply (X4_replacements_compose "hello" [1] [2] rune_x);
    [reflexivity|vm_compute; split; [discriminate|reflexivity]].
Defined.

(* ================================================================== *)
(** ** Further properties of the defanger *)

Lemma MatchString_get re s :
  regexp.MatchString re s = false ↔
  ∀ (i : nat) c, String.get i s = Some c → regexp.in_class re c = false.
Proof.
  induction s as [|d t IH]; cbn [regexp.MatchString].
  - split; [by intros _ [|i] c|done].
  - rewrite orb_false_iff, IH. split.
    + intros [Hd Ht] [|i] c; simpl; [by intros [= <-]|apply Ht].
    + intros H. split; [by apply (H 0%nat)|]. intros i c. apply (H (S i)).
Qed.

Lemma has_reserved_char_at s :
  has_reserved s = false ↔ ∀ p c, char_at s p = Some c → reserved c = false.
Proof.
  unfold has_reserved, reserved. rewrite MatchString_get. split.
  - intros H p c. unfold char_at. destruct (0 <=? p); [apply H|done].
  - intros H i c Hi. apply (H (Z.of_nat i)). unfold char_at.
    destruct (Z.leb_spec 0 (Z.of_nat i)); [|lia]. by rewrite Nat2Z.id.
Qed.

Lemma defangAtPositions_is_ascii s ps :
  is_ascii s = true → is_ascii (defangAtPositions s ps) = true.
Proof.
  intros Hs. rewrite (defangAtPositions_ascii s Hs).
  apply is_ascii_bytes, fold_assign_ascii, codes_ascii, Hs.
Qed.

Lemma defangAtPositions_no_reserved s ps :
  is_ascii s = true → has_reserved s = false →
  has_reserved (defangAtPositions s ps) = false.
Proof.
  intros Hs Hr. apply has_reserved_char_at. intros p c.
  rewrite (char_at_defangAtPositions s Hs).
  rewrite has_reserved_char_at in Hr.
  case_bool_decide; [|apply Hr].
  destruct (char_at s p); [|done]. by intros [= <-].
Qed.

Lemma defangAtPositions_len s ps :
  is_ascii s = true → len (defangAtPositions s ps) = len s.
Proof. intros Hs. unfold len. by rewrite (defangAtPositions_length s Hs). Qed.

(** The marker is written at a listed position that lies inside. *)
Lemma char_at_defangAtPositions_marker s ps p :
  is_ascii s = true → p ∈ ps → 0 <= p < len s →
  char_at (defangAtPositions s ps) p = Some "x"%char.
Proof.
  intros Hs Hp Hr. rewrite (char_at_defangAtPositions s Hs).
  rewrite bool_decide_eq_true_2 by done.
  destruct (proj2 (char_at_is_Some s p) Hr) as [c ->]. done.
Qed.

Lemma char_at_defangAtPositions_other s ps p :
  is_ascii s = true → p ∉ ps →
  char_at (defangAtPositions s ps) p = char_at s p.
Proof.
  intros Hs Hp. rewrite (char_at_defangAtPositions s Hs).
  by rewrite bool_decide_eq_false_2.
Qed.

Lemma marker_positions_short s :
  len s = 2 ∨ len s = 3 → marker_positions s = [1].
Proof.
  intros Hlen. unfold marker_positions.
  destruct (String.eqb_spec s "http") as [->|_]; [by destruct Hlen|].
  destruct (String.eqb_spec s "https") as [->|_]; [by destruct Hlen|].
  cbn [orb]. by destruct Hlen as [-> | ->].
Qed.

Lemma marker_positions_long s : 5 <= len s → marker_positions s = [1; 2].
Proof.
  intros Hlen. unfold marker_positions.
  destruct (String.eqb s "http" || String.eqb s "https"); [done|].
  destruct (Z.eqb_spec (len s) 3); [lia|].
  destruct (Z.eqb_spec (len s) 2); [lia|].
  destruct (Z.eqb_spec (len s) 4); [lia|]. done.
Qed.

(** X5.  The rules for three-letter and for two-letter schemes: a 7-bit
    scheme of two or three bytes with no reserved character keeps its
    length, gets the marker at position 1 (its middle, or its last byte)
    and keeps every other byte. *)
Theorem X5_short_scheme_rules (s : string) :
  is_ascii s = true →
  len s = 2 ∨ len s = 3 →
  has_reserved s = false →
  ∃ out, DefangScheme s = ([], Returned out) ∧
    len out = len s ∧
    char_at out 1 = Some "x"%char ∧
    ∀ p, p ≠ 1 → char_at out p = char_at s p.
Proof.
  intros Hs Hlen Hr. eexists. split.
  { rewrite (DefangScheme_marker s) by (done || lia).
    by rewrite (marker_positions_short s Hlen). }
  split; [by apply defangAtPositions_len|]. split.
  - apply char_at_defangAtPositions_marker; [done|by left|lia].
  - intros p Hp. apply char_at_defangAtPositions_other; [done|].
    by rewrite list_elem_of_singleton.
Qed.

Lemma X5_witness_ar_aaa :
  (∃ out, DefangScheme "ar" = ([], Returned out) ∧
     len out = len "ar" ∧
     char_at out 1 = Some "x"%char ∧
     ∀ p, p ≠ 1 → char_at out p = char_at "ar" p) ∧
  (∃ out, DefangScheme "aaa" = ([], Returned out) ∧
     len out = len "aaa" ∧
     char_at out 1 = Some "x"%char ∧
     ∀ p, p ≠ 1 → char_at out p = char_at "aaa" p).
Proof.
  split.
  - apply (X5_short_scheme_rules "ar"); [reflexivity|by left|reflexivity].
  - apply (X5_short_scheme_rules "aaa"); [reflexivity|by right|reflexivity].
Defined.

(** X6.  The default rule: a 7-bit scheme of five bytes or more with no
    reserved character keeps its length, gets the marker at positions 1
    and 2 and keeps every other byte. *)
Theorem X6_default_rule (s : string) :
  is_ascii s = true →
  5 <= len s →
  has_reserved s = false →
  ∃ out, DefangScheme s = ([], Returned out) ∧
    len out = len s ∧
    char_at out 1 = Some "x"%char ∧
    char_at out 2 = Some "x"%char ∧
    ∀ p, p ≠ 1 → p ≠ 2 → char_at out p = char_at s p.
Proof.
  intros Hs Hlen Hr. eexists. split.
  { rewrite (DefangScheme_marker s) by (done || lia).
    by rewrite (marker_positions_long s Hlen). }
  split; [by apply defangAtPositions_len|]. split; [|split].
  - apply char_at_defangAtPositions_marker; [done|by left|lia].
  - apply char_at_defangAtPositions_marker; [done|by right; left|lia].
  - intros p H1 H2. apply char_at_defangAtPositions_other; [done|].
    rewrite !elem_of_cons, elem_of_nil. tauto.
Qed.

Lemma X6_witness_about :
  ∃ out, DefangScheme "about" = ([], Returned out) ∧
    len out = len "about" ∧
    char_at out 1 = Some "x"%char ∧
    char_at out 2 = Some "x"%char ∧
    ∀ p, p ≠ 1 → p ≠ 2 → char_at out p = char_at "about" p.
Proof.
  apply (X6_default_rule "about"); [reflexivity|vm_compute; discriminate|reflexivity].
Defined.

(* ------------------------------------------------------------------ *)
(** *** Defanging twice *)

(** A marked scheme is returned as it is (the argument of C10, kept here
    as a lemma of its own). *)
Lemma marked_scheme_unchanged s :
  is_ascii s = true → len s ≠ 1 → has_reserved s = false →
  (∀ p, p ∈ marker_positions s → 0 <= p < len s → char_at s p = Some "x"%char) →
  DefangScheme s = ([], Returned s).
Proof.
  intros Hs Hlen Hr Hx. rewrite (DefangScheme_marker s) by done.
  do 2 f_equal. apply char_at_ext. intros p.
  rewrite (char_at_defangAtPositions s Hs).
  case_bool_decide as Hp; [|done].
  destruct (char_at s p) eqn:E; [|done].
  rewrite <- E. rewrite Hx; [done..|].
  apply char_at_is_Some. by rewrite E.
Qed.

Lemma marker_positions_same_length s t :
  len s = len t →
  String.eqb s "http" || String.eqb s "https" = false →
  String.eqb t "http" || String.eqb t "https" = false →
  marker_positions s = marker_positions t.
Proof. intros Hl Hs Ht. unfold marker_positions. by rewrite Hs, Ht, Hl. Qed.

Lemma not_http_when_marked t p :
  p = 1 ∨ p = 2 → char_at t p = Some "x"%char →
  String.eqb t "http" || String.eqb t "https" = false.
Proof.
  intros Hp Hx.
  destruct (String.eqb_spec t "http") as [->|_];
    [by destruct Hp as [-> | ->]|].
  destruct (String.eqb_spec t "https") as [->|_];
    [by destruct Hp as [-> | ->]|]. done.
Qed.

Lemma marker_positions_cases s :
  2 <= len s →
  ∃ p, (p = 1 ∨ p = 2) ∧ p ∈ marker_positions s ∧ 0 <= p < len s.
Proof.
  intros Hlen. unfold marker_positions.
  destruct (String.eqb_spec s "http") as [->|_].
  { exists 1. cbn. split; [by left|]. split; [by left|done]. }
  destruct (String.eqb_spec s "https") as [->|_].
  { exists 1. cbn. split; [by left|]. split; [by left|done]. }
  cbn [orb].
  destruct (Z.eqb_spec (len s) 3);
    [exists 1; split; [by left|]; split; [by left|lia]|].
  destruct (Z.eqb_spec (len s) 2);
    [exists 1; split; [by left|]; split; [by left|lia]|].
  destruct (Z.eqb_spec (len s) 4);
    [exists 2; split; [by right|]; split; [by left|lia]|].
  exists 1. split; [by left|]. split; [by left|lia].
Qed.

(** X7.  Defanging is idempotent on marker-defanged schemes: the defanged
    form of a 7-bit scheme of two bytes or more with no reserved character
    is itself returned unchanged by [DefangScheme]. *)
Theorem X7_marker_defanging_is_idempotent (s : string) :
  is_ascii s = true →
  2 <= len s →
  has_reserved s = false →
  ∃ out, DefangScheme s = ([], Returned out) ∧
         DefangScheme out = ([], Returned out).
Proof.
  intros Hs Hlen Hr.
  destruct (String.eqb s "http" || String.eqb s "https") eqn:Ehttp.
  { apply orb_true_iff in Ehttp as [E|E]; apply String.eqb_eq in E; subst s;
      eexists; split; reflexivity. }
  exists (defangAtPositions s (marker_positions s)).
  split; [apply DefangScheme_marker; [lia|done]|].
  set (out := defangAtPositions s (marker_positions s)).
  assert (len out = len s) as Hlo by (by apply defangAtPositions_len).
  assert (∀ p, p ∈ marker_positions s → 0 <= p < len s →
               char_at out p = Some "x"%char) as Hmark
    by (intros p Hp Hrange; by apply char_at_defangAtPositions_marker).
  apply marked_scheme_unchanged.
  - by apply defangAtPositions_is_ascii.
  - lia.
  - by apply defangAtPositions_no_reserved.
  - intros p Hp Hrange.
    destruct (marker_positions_cases s Hlen) as (q & Hq & Hqin & Hqr).
    pose proof (not_http_when_marked out q Hq (Hmark q Hqin Hqr)) as Eout.
    rewrite (marker_positions_same_length out s Hlo Eout Ehttp) in Hp.
    apply Hmark; [done|lia].
Qed.

Lemma X7_witness_https :
  ∃ out, DefangScheme "https" = ([], Returned out) ∧
         DefangScheme out = ([], Returned out).
Proof.
  apply (X7_marker_defanging_is_idempotent "https");
    [reflexivity|vm_compute; discriminate|reflexivity].
Defined.

(* ------------------------------------------------------------------ *)
(** *** Which schemes share a defanged form *)

(** X8.  Two 7-bit schemes with no reserved character that fall under
    the same marker positions have the same defanged form exactly when
    they have the same length and the same bytes outside these
    positions. *)
Theorem X8_marker_collisions (s s' : string) :
  is_ascii s = true → is_ascii s' = true →
  2 <= len s → 2 <= len s' →
  has_reserved s = false → has_reserved s' = false →
  marker_positions s = marker_positions s' →
  (DefangScheme s = DefangScheme s' ↔
   len s = len s' ∧
   ∀ p, p ∉ marker_positions s → char_at s p = char_at s' p).
Proof.
  intros Hs Hs' Hlen Hlen' Hr Hr' Hm.
  rewrite (DefangScheme_marker s), (DefangScheme_marker s') by (done || lia).
  rewrite <- Hm. split.
  - intros [= E]. split.
    + by rewrite <- (defangAtPositions_len s (marker_positions s) Hs), E,
        defangAtPositions_len.
    + intros p Hp.
      rewrite <- (char_at_defangAtPositions_other s _ p Hs Hp), E.
      by apply char_at_defangAtPositions_other.
  - intros [Hl Hp]. do 2 f_equal. apply char_at_ext. intros p.
    rewrite (char_at_defangAtPositions s Hs), (char_at_defangAtPositions s' Hs').
    case_bool_decide as Hin; [|by apply Hp].
    destruct (decide (0 <= p < len s)) as [Hrange|Hrange].
    + destruct (proj2 (char_at_is_Some s p) Hrange) as [c ->].
      destruct (proj2 (char_at_is_Some s' p)) as [c' ->]; [lia|done].
    + destruct (char_at s p) eqn:E.
      { exfalso. apply Hrange, char_at_is_Some. by rewrite E. }
      destruct (char_at s' p) eqn:E'; [|done].
      exfalso. apply Hrange. rewrite Hl. apply char_at_is_Some. by rewrite E'.
Qed.

Lemma X8_witness_abcde :
  DefangScheme "abcde" = DefangScheme "aqqde" ↔
  len "abcde" = len "aqqde" ∧
  ∀ p, p ∉ marker_positions "abcde" → char_at "abcde" p = char_at "aqqde" p.
Proof.
  apply (X8_marker_collisions "abcde" "aqqde");
    solve [reflexivity | vm_compute; discriminate].
Defined.

(* ------------------------------------------------------------------ *)
(** *** The bracket rule *)

Lemma count_runs_outside re inside s :
  starts_outside re s = true → count_runs re inside s = count_runs re false s.
Proof.
  destruct s as [|c t]; [done|]. cbn [starts_outside count_runs].
  by intros ->%negb_true_iff.
Qed.

Lemma count_runs_inside re r s :
  all_in_class re r = true → starts_outside re s = true →
  count_runs re true (r +:+ s) = count_runs re false s.
Proof.
  intros Hr Hs. induction r as [|c r IH].
  - rewrite app_empty_l. by apply count_runs_outside.
  - rewrite app_cons. cbn [all_in_class count_runs] in *.
    apply andb_true_iff in Hr as [-> Hr]. by rewrite IH.
Qed.

Lemma count_runs_no_match re inside s :
  regexp.MatchString re s = false → count_runs re inside s = 0%nat.
Proof.
  revert inside. induction s as [|c t IH]; intros inside; [done|].
  cbn [regexp.MatchString count_runs].
  intros [-> Ht]%orb_false_iff. by apply IH.
Qed.

Lemma Wrapped_count re s t :
  Wrapped re s t →
  String.length t = (String.length s + 2 * count_runs re false s)%nat.
Proof.
  induction 1 as [|c s t Hc _ IH|r s t Hne Hr Hs _ IH]; [done| |].
  - cbn [count_runs String.length]. rewrite Hc. lia.
  - destruct r as [|c r]; [done|].
    assert (count_runs re false (String c r +:+ s) =
            S (count_runs re false s)) as ->.
    { rewrite app_cons. cbn [count_runs all_in_class] in *.
      apply andb_true_iff in Hr as [-> Hr].
      by rewrite (count_runs_inside re r s Hr Hs). }
    rewrite !length_append, IH. cbn [String.length]. lia.
Qed.

Lemma ReplaceAll_Wrapped s :
  Wrapped ADDITIONAL_ALLOWED_SCHEME_CHARS_PATTERN s
    (regexp.ReplaceAllStringFunc ADDITIONAL_ALLOWED_SCHEME_CHARS_PATTERN s bracket).
Proof.
  unfold regexp.ReplaceAllStringFunc.
  rewrite <- (app_empty_l s) at 1. by apply scan_Wrapped.
Qed.

(** X9.  The length of the defanged form: a 7-bit scheme that is not of
    length 1 grows by two bytes for each maximal run of reserved
    characters, and keeps its length when it has none. *)
Theorem X9_defanged_length (s : string) :
  is_ascii s = true →
  len s ≠ 1 →
  ∃ out, DefangScheme s = ([], Returned out) ∧
    len out =
      len s + 2 * Z.of_nat (count_runs ADDITIONAL_ALLOWED_SCHEME_CHARS_PATTERN false s).
Proof.
  intros Hs Hlen. destruct (has_reserved s) eqn:Hr.
  - eexists. split; [by apply DefangScheme_reserved|].
    unfold len. rewrite (Wrapped_count _ _ _ (ReplaceAll_Wrapped s)). lia.
  - eexists. split; [by apply DefangScheme_marker|].
    rewrite (defangAtPositions_len _ _ Hs).
    rewrite (count_runs_no_match _ _ _ Hr). lia.
Qed.

Lemma X9_witness_runs :
  ∃ out, DefangScheme "a-+b.c" = ([], Returned out) ∧
    len out =
      len "a-+b.c" +
      2 * Z.of_nat (count_runs ADDITIONAL_ALLOWED_SCHEME_CHARS_PATTERN false "a-+b.c").
Proof.
  apply (X9_defanged_length "a-+b.c"); [reflexivity|vm_compute; discriminate].
Defined.

Lemma Wrapped_occurs re s t :
  Wrapped re s t → regexp.MatchString re s = true →
  occurs "["%char t = true.
Proof.
  induction 1 as [|c s t Hc _ IH|r s t _ _ _ _ _]; [done| |done].
  cbn [regexp.MatchString occurs]. rewrite Hc. cbn [orb].
  intros H. rewrite (IH H). apply orb_true_r.
Qed.

Lemma occurs_not_in_class re c s :
  regexp.in_class re c = false → occurs c s = true →
  all_in_class re s = false.
Proof.
  intros Hc. induction s as [|d t IH]; [done|].
  cbn [occurs all_in_class].
  destruct (Ascii.eqb_spec d c) as [->|_]; [by rewrite Hc|].
  cbn [orb]. intros H. rewrite (IH H). apply andb_false_r.
Qed.

Lemma defangedSchemeIsKnown_iff scheme knownSchemes :
  defangedSchemeIsKnown scheme knownSchemes = true ↔
  ∃ k, k ∈ knownSchemes ∧ Scheme_DefangedScheme scheme = Scheme_Scheme k.
Proof.
  induction knownSchemes as [|k l IH]; cbn [defangedSchemeIsKnown].
  - split; [done|]. intros (k & Hk & _). by apply elem_of_nil in Hk.
  - destruct (String.eqb_spec (Scheme_DefangedScheme scheme) (Scheme_Scheme k))
      as [E|E].
    + split; [|done]. intros _. exists k. split; [by left|done].
    + rewrite IH. split.
      * intros (k' & Hk' & E'). exists k'. split; [by right|done].
      * intros (k' & [->|Hk']%elem_of_cons & E'); [done|]. eauto.
Qed.

(** X10.  The bracket rule produces invalid schemes: the defanged form of
    a scheme with a reserved character holds a square bracket, so it is
    not a scheme token, and it is not known in any registry whose names
    are scheme tokens. *)
Theorem X10_bracketed_form_is_not_a_scheme
    (s : string) (status : Status) (knownSchemes : list Scheme) :
  len s ≠ 1 →
  has_reserved s = true →
  Forall (λ k, is_token (Scheme_Scheme k) = true) knownSchemes →
  ∃ out, DefangScheme s = ([], Returned out) ∧
    occurs "["%char out = true ∧
    is_token out = false ∧
    defangedSchemeIsKnown (mkScheme s out status) knownSchemes = false.
Proof.
  intros Hlen Hr Hk. eexists. split; [by apply DefangScheme_reserved|].
  pose proof (Wrapped_occurs _ _ _ (ReplaceAll_Wrapped s) Hr) as Ho.
  assert (is_token (regexp.ReplaceAllStringFunc
            ADDITIONAL_ALLOWED_SCHEME_CHARS_PATTERN s bracket) = false) as Ht.
  { unfold is_token.
    rewrite (occurs_not_in_class SCHEME_PATTERN "["%char _ eq_refl Ho).
    apply andb_false_r. }
  split; [done|]. split; [done|].
  apply not_true_is_false. intros (k & Hin & E)%defangedSchemeIsKnown_iff.
  rewrite Forall_forall in Hk. specialize (Hk k Hin).
  cbn [Scheme_DefangedScheme] in E. rewrite <- E in Hk. congruence.
Qed.

Lemma X10_witness_z39 :
  ∃ out, DefangScheme "z39.50r" = ([], Returned out) ∧
    occurs "["%char out = true ∧
    is_token out = false ∧
    defangedSchemeIsKnown (mkScheme "z39.50r" out Permanent) quadrupleRegistry = false.
Proof.
  apply (X10_bracketed_form_is_not_a_scheme "z39.50r" Permanent quadrupleRegistry);
    [vm_compute; discriminate|reflexivity|].
  repeat constructor.
Defined.

Lemma unbracket_app s t : unbracket (s +:+ t) = unbracket s +:+ unbracket t.
Proof.
  induction s as [|c s IH]; [done|]. rewrite app_cons. cbn [unbracket].
  destruct (Ascii.eqb c "[" || Ascii.eqb c "]"); [done|].
  by rewrite app_cons, IH.
Qed.

Lemma unbracket_id s :
  occurs "["%char s = false → occurs "]"%char s = false → unbracket s = s.
Proof.
  induction s as [|c s IH]; [done|]. cbn [occurs unbracket].
  intros [-> H1]%orb_false_iff [-> H2]%orb_false_iff. cbn [orb].
  by rewrite IH.
Qed.

Lemma occurs_app c s t : occurs c (s +:+ t) = occurs c s || occurs c t.
Proof.
  induction s as [|d s IH]; [done|]. rewrite app_cons. cbn [occurs].
  by rewrite IH, orb_assoc.
Qed.

Lemma Wrapped_unbracket re s t :
  Wrapped re s t →
  occurs "["%char s = false → occurs "]"%char s = false →
  unbracket t = s.
Proof.
  induction 1 as [|c s t Hc _ IH|r s t _ _ _ _ IH]; [done| |].
  - cbn [occurs unbracket].
    intros [-> H1]%orb_false_iff [-> H2]%orb_false_iff. cbn [orb].
    by rewrite IH.
  - rewrite !occurs_app.
    intros [Hr1 Hs1]%orb_false_iff [Hr2 Hs2]%orb_false_iff.
    rewrite app_cons, app_empty_l. cbn [unbracket Ascii.eqb]. cbn.
    rewrite unbracket_app, (unbracket_id r Hr1 Hr2).
    rewrite app_cons, app_empty_l. cbn [unbracket]. cbn.
    by rewrite IH.
Qed.

(** X11.  The bracket rule can be undone: when a scheme with a reserved
    character holds no square bracket itself (no scheme token does),
    removing the square brackets from its defanged form gives the scheme
    back; so two such schemes never share a defanged form. *)
Theorem X11_bracket_rule_round_trip (s : string) :
  len s ≠ 1 →
  has_reserved s = true →
  occurs "["%char s = false →
  occurs "]"%char s = false →
  ∃ out, DefangScheme s = ([], Returned out) ∧ unbracket out = s.
Proof.
  intros Hlen Hr H1 H2. eexists. split; [by apply DefangScheme_reserved|].
  by apply (Wrapped_unbracket _ _ _ (ReplaceAll_Wrapped s)).
Qed.

Lemma X11_witness_z39 :
  ∃ out, DefangScheme "z39.50r" = ([], Returned out) ∧ unbracket out = "z39.50r".
Proof.
  apply (X11_bracket_rule_round_trip "z39.50r");
    solve [reflexivity | vm_compute; discriminate].
Defined.

(* ================================================================== *)
(** ** Further properties of the registry checks *)

Lemma knownEdgeCase_iff r :
  knownEdgeCase r = true ↔ Scheme_Scheme r ∈ edge_names.
Proof.
  unfold knownEdgeCase, edge_names.
  rewrite !orb_true_iff, !String.eqb_eq, !elem_of_cons, elem_of_nil. tauto.
Qed.

Lemma result_bind_returned (p k : proc unit) :
  result (p ;; k) = Returned tt ↔ result p = Returned tt ∧ result k = Returned tt.
Proof.
  destruct p as [out [[]|code]], k as [out' r']; cbn; [tauto|].
  split; [done|by intros [? _]].
Qed.

Lemma cons_decompose {A : Type} (x : A) l before y after :
  x :: l = before ++ y :: after →
  (before = [] ∧ y = x ∧ after = l) ∨
  (∃ before', before = x :: before' ∧ l = before' ++ y :: after).
Proof.
  destruct before as [|z before]; cbn.
  - intros [= -> ->]. by left.
  - intros [= -> ->]. right. eauto.
Qed.

Section MoreLoops.

Variable schemes : list Scheme.

Lemma notValidLoop_returns_iff http_warned todo :
  result (notValidLoop schemes http_warned todo) = Returned tt ↔
  ∀ r, r ∈ todo → defangedSchemeIsKnown r schemes = true →
       knownEdgeCase r = true.
Proof.
  split.
  - intros Hret r Hin Hk. destruct (knownEdgeCase r) eqn:He; [done|].
    rewrite (notValidLoop_fatal schemes http_warned todo r Hin Hk He) in Hret.
    done.
  - revert http_warned. induction todo as [|scheme todo IH]; intros w H; [done|].
    cbn [notValidLoop].
    assert (∀ r, r ∈ todo → defangedSchemeIsKnown r schemes = true →
                 knownEdgeCase r = true) as H'
      by (intros r Hr; apply H; by right).
    destruct (defangedSchemeIsKnown scheme schemes) eqn:Hk; [|by apply IH].
    rewrite (H scheme (ltac:(left)) Hk).
    destruct (negb w); [|by apply IH].
    rewrite result_Printf. by apply IH.
Qed.

Lemma notValidLoop_silent http_warned todo :
  (∀ r, r ∈ todo → defangedSchemeIsKnown r schemes = false) →
  notValidLoop schemes http_warned todo = ([], Returned tt).
Proof.
  induction todo as [|scheme todo IH]; intros H; [done|].
  cbn [notValidLoop]. rewrite (H scheme) by (by left).
  apply IH. intros r Hr. apply H. by right.
Qed.

Lemma notValidLoop_warning_iff http_warned todo :
  result (notValidLoop schemes http_warned todo) = Returned tt →
  (HttpDefangsToValid ∈ stdout (notValidLoop schemes http_warned todo) ↔
   http_warned = false ∧
   ∃ r, r ∈ todo ∧ defangedSchemeIsKnown r schemes = true).
Proof.
  revert http_warned. induction todo as [|scheme todo IH]; intros w.
  { intros _. cbn. rewrite elem_of_nil. split; [done|].
    intros (_ & r & Hr & _). by apply elem_of_nil in Hr. }
  cbn [notValidLoop].
  destruct (defangedSchemeIsKnown scheme schemes) eqn:Hk.
  - destruct (knownEdgeCase scheme); [|done].
    destruct w; cbn [negb].
    + intros Hret. rewrite (IH true Hret). split; [by intros [? _]|by intros [? _]].
    + rewrite result_Printf, Printf_bind. cbn [stdout fst]. intros _.
      split; [|intros _; by left].
      intros _. split; [done|]. exists scheme. split; [by left|done].
  - intros Hret. rewrite (IH w Hret). split.
    + intros (Hw & r & Hr & Hkr). split; [done|]. exists r. split; [by right|done].
    + intros (Hw & r & [->|Hr]%elem_of_cons & Hkr); [congruence|]. eauto.
Qed.

Lemma oneToOneLoop_returns_iff http_warned seen todo :
  result (oneToOneLoop schemes http_warned seen todo) = Returned tt ↔
  ∀ before r after, todo = before ++ r :: after →
    repeats seen before r → knownEdgeCase r = true.
Proof.
  split.
  - intros Hret before r after -> Hrep.
    destruct (knownEdgeCase r) eqn:He; [done|].
    rewrite (oneToOneLoop_fatal schemes http_warned seen before r after He Hrep)
      in Hret. done.
  - revert http_warned seen.
    induction todo as [|scheme todo IH]; intros w seen H; [done|].
    cbn [oneToOneLoop].
    assert (∀ before r after, todo = before ++ r :: after →
              repeats ({[Scheme_DefangedScheme scheme]} ∪ seen) before r →
              knownEdgeCase r = true) as H'.
    { intros before r after -> Hrep. apply (H (scheme :: before) r after eq_refl).
      unfold repeats in *. rewrite fmap_cons, elem_of_cons.
      rewrite elem_of_union, elem_of_singleton in Hrep. tauto. }
    destruct (bool_decide_reflect (Scheme_DefangedScheme scheme ∈ seen))
      as [Hin|Hin]; [|by apply IH].
    rewrite (H [] scheme todo eq_refl) by (by left).
    destruct (negb w); [|by apply IH].
    rewrite result_Printf. by apply IH.
Qed.

Lemma oneToOneLoop_silent http_warned seen todo :
  (∀ before r after, todo = before ++ r :: after → ¬ repeats seen before r) →
  oneToOneLoop schemes http_warned seen todo = ([], Returned tt).
Proof.
  revert seen. induction todo as [|scheme todo IH]; intros seen H; [done|].
  cbn [oneToOneLoop].
  rewrite bool_decide_eq_false_2.
  2:{ intros Hin. apply (H [] scheme todo eq_refl). by left. }
  apply IH. intros before r after -> Hrep.
  apply (H (scheme :: before) r after eq_refl).
  unfold repeats in *. rewrite fmap_cons, elem_of_cons.
  rewrite elem_of_union, elem_of_singleton in Hrep. tauto.
Qed.

Lemma oneToOneLoop_warning_iff http_warned seen todo :
  result (oneToOneLoop schemes http_warned seen todo) = Returned tt →
  (HttpDefangsToHxxp ∈ stdout (oneToOneLoop schemes http_warned seen todo) ↔
   http_warned = false ∧
   ∃ before r after, todo = before ++ r :: after ∧ repeats seen before r).
Proof.
  revert http_warned seen. induction todo as [|scheme todo IH]; intros w seen.
  { intros _. cbn. rewrite elem_of_nil. split; [done|].
    intros (_ & before & r & after & E & _). by destruct before. }
  cbn [oneToOneLoop].
  assert (∀ before r, repeats ({[Scheme_DefangedScheme scheme]} ∪ seen) before r ↔
                      repeats seen (scheme :: before) r) as Hshift.
  { intros before r. unfold repeats.
    rewrite fmap_cons, elem_of_cons, elem_of_union, elem_of_singleton. tauto. }
  destruct (bool_decide_reflect (Scheme_DefangedScheme scheme ∈ seen)) as [Hin|Hin].
  - destruct (knownEdgeCase scheme); [|done].
    destruct w; cbn [negb].
    + intros Hret. rewrite (IH true _ Hret). split; [by intros [? _]|by intros [? _]].
    + rewrite result_Printf, Printf_bind. cbn [stdout fst]. intros _.
      split; [|intros _; by left].
      intros _. split; [done|]. exists [], scheme, todo. split; [done|by left].
  - intros Hret. rewrite (IH w _ Hret). split.
    + intros (Hw & before & r & after & -> & Hrep). split; [done|].
      exists (scheme :: before), r, after. split; [done|by apply Hshift].
    + intros (Hw & before & r & after & E & Hrep). split; [done|].
      apply cons_decompose in E as [(-> & -> & ->)|(before' & -> & ->)].
      * destruct Hrep as [?|Hrep]; [done|]. by apply elem_of_nil in Hrep.
      * exists before', r, after. split; [done|by apply Hshift].
Qed.

End MoreLoops.

Lemma repeats_initially before r :
  repeats ∅ before r ↔
  Scheme_DefangedScheme r ∈ Scheme_DefangedScheme <$> before.
Proof.
  unfold repeats. split; [|by right].
  intros [H|H]; [by apply elem_of_empty in H|done].
Qed.

(** X12.  The first check returns exactly when every record whose
    defanged form is the name of a record of the slice bears one of the
    four edge-case names; otherwise it exits. *)
Theorem X12_not_valid_check_returns_iff (schemes : list Scheme) :
  result (defangedSchemesAreNotValid schemes) = Returned tt ↔
  ∀ r k, r ∈ schemes → k ∈ schemes →
    Scheme_DefangedScheme r = Scheme_Scheme k →
    Scheme_Scheme r ∈ edge_names.
Proof.
  unfold defangedSchemesAreNotValid. rewrite result_Printf.
  rewrite notValidLoop_returns_iff. split.
  - intros H r k Hr Hk E. apply knownEdgeCase_iff, H; [done|].
    apply defangedSchemeIsKnown_iff. eauto.
  - intros H r Hr (k & Hk & E)%defangedSchemeIsKnown_iff.
    apply knownEdgeCase_iff. eauto.
Qed.

(** X13.  The second check returns exactly when every record that repeats
    the defanged form of a record before it bears one of the four
    edge-case names; otherwise it exits. *)
Theorem X13_one_to_one_check_returns_iff (schemes : list Scheme) :
  result (defangedSchemesAreOneToOne schemes) = Returned tt ↔
  ∀ before r after, schemes = before ++ r :: after →
    Scheme_DefangedScheme r ∈ Scheme_DefangedScheme <$> before →
    Scheme_Scheme r ∈ edge_names.
Proof.
  unfold defangedSchemesAreOneToOne. rewrite result_Printf.
  rewrite oneToOneLoop_returns_iff. split.
  - intros H before r after E Hd.
    apply knownEdgeCase_iff, (H before r after E). by apply repeats_initially.
  - intros H before r after E Hd%repeats_initially.
    apply knownEdgeCase_iff. eauto.
Qed.

(* ------------------------------------------------------------------ *)
(** *** What the lines of a run tell *)

Lemma notValidLoop_lines schemes http_warned todo m :
  m ∈ stdout (notValidLoop schemes http_warned todo) →
  m = HttpDefangsToValid ∨
  ∃ r, r ∈ todo ∧ m = StillValid (Scheme_DefangedScheme r) ∧
       defangedSchemeIsKnown r schemes = true ∧ knownEdgeCase r = false.
Proof.
  revert http_warned. induction todo as [|scheme todo IH]; intros w.
  { intros H. by apply elem_of_nil in H. }
  assert (∀ w', m ∈ stdout (notValidLoop schemes w' todo) →
    m = HttpDefangsToValid ∨
    ∃ r, r ∈ scheme :: todo ∧ m = StillValid (Scheme_DefangedScheme r) ∧
         defangedSchemeIsKnown r schemes = true ∧ knownEdgeCase r = false) as IH'.
  { intros w' [?|(r & Hr & ?)]%IH; [by left|]. right. exists r.
    split; [by right|done]. }
  cbn [notValidLoop].
  destruct (defangedSchemeIsKnown scheme schemes) eqn:Hk; [|apply IH'].
  destruct (knownEdgeCase scheme) eqn:He.
  - destruct (negb w); [|apply IH'].
    rewrite Printf_bind. cbn [stdout fst]. rewrite elem_of_cons.
    intros [->|H]; [by left|by apply IH' in H].
  - rewrite Printf_Exit. cbn [stdout fst]. rewrite list_elem_of_singleton.
    intros ->. right. exists scheme. split; [by left|done].
Qed.

Lemma oneToOneLoop_lines schemes http_warned seen todo m :
  m ∈ stdout (oneToOneLoop schemes http_warned seen todo) →
  m = HttpDefangsToHxxp ∨ ∃ d offs, m = Duplicated d offs.
Proof.
  revert http_warned seen. induction todo as [|scheme todo IH]; intros w seen.
  { intros H. by apply elem_of_nil in H. }
  cbn [oneToOneLoop].
  destruct (bool_decide _); [|apply IH].
  destruct (knownEdgeCase scheme).
  - destruct (negb w); [|apply IH].
    rewrite Printf_bind. cbn [stdout fst]. rewrite elem_of_cons.
    intros [->|H]; [by left|by apply IH in H].
  - rewrite Printf_Exit. cbn [stdout fst]. rewrite list_elem_of_singleton.
    intros ->. right. eauto.
Qed.

Lemma verify_stdout_returned schemes :
  result (defangedSchemesAreNotValid schemes) = Returned tt →
  stdout (verify schemes) =
    CheckingNotValid :: stdout (notValidLoop schemes false schemes) ++
    CheckingOneToOne :: stdout (oneToOneLoop schemes false ∅ schemes).
Proof.
  unfold verify, defangedSchemesAreNotValid, defangedSchemesAreOneToOne.
  rewrite !Printf_bind. cbn [stdout result fst snd].
  destruct (notValidLoop schemes false schemes) as [o1 [[]|c1]];
    destruct (oneToOneLoop schemes false ∅ schemes) as [o2 r2];
    cbn; done.
Qed.

Lemma verify_stdout_elem schemes m :
  m ∈ stdout (verify schemes) →
  m = CheckingNotValid ∨ m ∈ stdout (notValidLoop schemes false schemes) ∨
  m = CheckingOneToOne ∨ m ∈ stdout (oneToOneLoop schemes false ∅ schemes).
Proof.
  unfold verify, defangedSchemesAreNotValid, defangedSchemesAreOneToOne.
  rewrite !Printf_bind. cbn [stdout result fst snd].
  destruct (notValidLoop schemes false schemes) as [o1 [[]|c1]];
    destruct (oneToOneLoop schemes false ∅ schemes) as [o2 r2];
    cbn; rewrite ?elem_of_cons, ?elem_of_app, ?elem_of_cons; tauto.
Qed.

Lemma NoDup_decompose {A : Type} (l : list A) :
  NoDup l ↔ ∀ before x after, l = before ++ x :: after → x ∉ before.
Proof.
  induction l as [|y l IH].
  - split; [|constructor]. intros _ before x after E. by destruct before.
  - rewrite NoDup_cons, IH. split.
    + intros [Hy H] before x after E.
      apply cons_decompose in E as [(-> & -> & ->)|(before' & -> & ->)].
      * apply not_elem_of_nil.
      * rewrite not_elem_of_cons. split; [|by eapply H].
        intros ->. apply Hy. rewrite elem_of_app, elem_of_cons. tauto.
    + intros H. split.
      * intros (b & a & ->)%list_elem_of_split.
        apply (H (y :: b) y a eq_refl). by left.
      * intros before x after ->.
        pose proof (H (y :: before) x after eq_refl) as Hx.
        rewrite not_elem_of_cons in Hx. tauto.
Qed.

Lemma NoDup_defanged schemes :
  NoDup (Scheme_DefangedScheme <$> schemes) ↔
  ∀ before r after, schemes = before ++ r :: after →
    Scheme_DefangedScheme r ∉ Scheme_DefangedScheme <$> before.
Proof.
  rewrite NoDup_decompose. split.
  - intros H before r after ->. eapply H. by rewrite fmap_app, fmap_cons.
  - intros H before x after E.
    apply fmap_app_inv in E as (l1 & l2 & -> & E & ->).
    symmetry in E. apply fmap_cons_inv in E as (r & l3 & -> & -> & ->).
    by eapply H.
Qed.

Lemma verify_silent_iff schemes :
  verify schemes = ([CheckingNotValid; CheckingOneToOne], Returned tt) ↔
  (∀ r k, r ∈ schemes → k ∈ schemes →
          Scheme_DefangedScheme r ≠ Scheme_Scheme k) ∧
  NoDup (Scheme_DefangedScheme <$> schemes).
Proof.
  rewrite NoDup_defanged. split.
  - intros H.
    assert (result (verify schemes) = Returned tt) as Hret by (by rewrite H).
    apply result_bind_returned in Hret as [Hr1 Hr2].
    pose proof (verify_stdout_returned schemes Hr1) as Hout.
    rewrite H in Hout. cbn [stdout fst] in Hout.
    injection Hout as Hout.
    destruct (stdout (notValidLoop schemes false schemes)) as [|m o1] eqn:E1;
      [|destruct o1; done].
    cbn in Hout. injection Hout as Hout.
    unfold defangedSchemesAreNotValid, defangedSchemesAreOneToOne in Hr1, Hr2.
    rewrite result_Printf in Hr1, Hr2.
    pose proof (notValidLoop_warning_iff schemes false schemes Hr1) as W1.
    pose proof (oneToOneLoop_warning_iff schemes false ∅ schemes Hr2) as W2.
    rewrite E1 in W1. rewrite <- Hout in W2. split.
    + intros r k Hr Hk E. apply (not_elem_of_nil HttpDefangsToValid), W1.
      split; [done|]. exists r. split; [done|].
      apply defangedSchemeIsKnown_iff. eauto.
    + intros before r after E Hd.
      apply (not_elem_of_nil HttpDefangsToHxxp), W2.
      split; [done|]. exists before, r, after. split; [done|by right].
  - intros [H1 H2]. unfold verify, defangedSchemesAreNotValid,
      defangedSchemesAreOneToOne.
    rewrite (notValidLoop_silent schemes false schemes).
    2:{ intros r Hr. apply not_true_is_false.
        intros (k & Hk & E)%defangedSchemeIsKnown_iff.
        exact (H1 r k Hr Hk E). }
    rewrite (oneToOneLoop_silent schemes false ∅ schemes); [done|].
    intros before r after E Hd%repeats_initially.
    exact (H2 before r after E Hd).
Qed.

(** X14.  [verify] succeeds in silence, printing only the two lines that
    announce the checks, exactly when the registry is clean: no defanged
    form is the name of a record and no two records share a defanged
    form. *)
Theorem X14_silent_success_iff_clean (schemes : list Scheme) :
  verify schemes = ([CheckingNotValid; CheckingOneToOne], Returned tt) ↔
  (∀ r k, r ∈ schemes → k ∈ schemes →
          Scheme_DefangedScheme r ≠ Scheme_Scheme k) ∧
  NoDup (Scheme_DefangedScheme <$> schemes).
Proof. apply verify_silent_iff. Qed.

(** X15.  The exception is never passed over in silence: when [verify]
    returns, it has printed the warning of the first check exactly when
    some defanged form is the name of a record, and the warning of the
    second check exactly when some record repeats the defanged form of a
    record before it. *)
Theorem X15_warnings_tell_exempted_violations (schemes : list Scheme) :
  result (verify schemes) = Returned tt →
  (HttpDefangsToValid ∈ stdout (verify schemes) ↔
   ∃ r k, r ∈ schemes ∧ k ∈ schemes ∧
          Scheme_DefangedScheme r = Scheme_Scheme k) ∧
  (HttpDefangsToHxxp ∈ stdout (verify schemes) ↔
   ∃ before r after, schemes = before ++ r :: after ∧
     Scheme_DefangedScheme r ∈ Scheme_DefangedScheme <$> before).
Proof.
  intros [Hr1 Hr2]%result_bind_returned.
  rewrite (verify_stdout_returned schemes Hr1).
  unfold defangedSchemesAreNotValid, defangedSchemesAreOneToOne in Hr1, Hr2.
  rewrite result_Printf in Hr1, Hr2.
  pose proof (notValidLoop_warning_iff schemes false schemes Hr1) as W1.
  pose proof (oneToOneLoop_warning_iff schemes false ∅ schemes Hr2) as W2.
  split.
  - rewrite elem_of_cons, elem_of_app, elem_of_cons. split.
    + intros [?|[H|[?|H]]]; try done.
      * apply W1 in H as (_ & r & Hr & (k & Hk & E)%defangedSchemeIsKnown_iff).
        eauto.
      * apply oneToOneLoop_lines in H as [?|(? & ? & ?)]; done.
    + intros (r & k & Hr & Hk & E). right. left. apply W1.
      split; [done|]. exists r. split; [done|].
      apply defangedSchemeIsKnown_iff. eauto.
  - rewrite elem_of_cons, elem_of_app, elem_of_cons. split.
    + intros [?|[H|[?|H]]]; try done.
      * apply notValidLoop_lines in H as [?|(? & _ & ? & _)]; done.
      * apply W2 in H as (_ & before & r & after & E & Hd%repeats_initially).
        eauto.
    + intros (before & r & after & E & Hd). do 3 right. apply W2.
      split; [done|]. exists before, r, after. split; [done|by right].
Qed.

Lemma X15_witness_quadruple :
  (HttpDefangsToValid ∈ stdout (verify quadrupleRegistry) ↔
   ∃ r k, r ∈ quadrupleRegistry ∧ k ∈ quadrupleRegistry ∧
          Scheme_DefangedScheme r = Scheme_Scheme k) ∧
  (HttpDefangsToHxxp ∈ stdout (verify quadrupleRegistry) ↔
   ∃ before r after, quadrupleRegistry = before ++ r :: after ∧
     Scheme_DefangedScheme r ∈ Scheme_DefangedScheme <$> before).
Proof.
  apply (X15_warnings_tell_exempted_violations quadrupleRegistry). reflexivity.
Defined.

(** X16.  The error of the first check is truthful: whenever [verify]
    prints that a defanged scheme is still valid, this string is the
    defanged form of a record outside the four edge-case names and the
    name of a record of the registry. *)
Theorem X16_still_valid_report_is_truthful (schemes : list Scheme) (d : string) :
  StillValid d ∈ stdout (verify schemes) →
  ∃ r k, r ∈ schemes ∧ k ∈ schemes ∧
    Scheme_DefangedScheme r = d ∧ Scheme_Scheme k = d ∧
    Scheme_Scheme r ∉ edge_names.
Proof.
  intros [?|[H|[?|H]]]%verify_stdout_elem; try done.
  - apply notValidLoop_lines in H as [?|(r & Hr & [= ->] & Hk & He)]; [done|].
    apply defangedSchemeIsKnown_iff in Hk as (k & Hk & E).
    exists r, k. repeat split; try done.
    intros Hin%knownEdgeCase_iff. congruence.
  - apply oneToOneLoop_lines in H as [?|(? & ? & ?)]; done.
Qed.

Lemma X16_witness_colliding :
  ∃ r k, r ∈ collidingRegistry ∧ k ∈ collidingRegistry ∧
    Scheme_DefangedScheme r = "ax" ∧ Scheme_Scheme k = "ax" ∧
    Scheme_Scheme r ∉ edge_names.
Proof.
  apply (X16_still_valid_report_is_truthful collidingRegistry "ax").
  vm_compute. right. left.
Defined.

(* ------------------------------------------------------------------ *)
(** *** The entry point of the check tool *)

Lemma main_unfold SchemeMap :
  main SchemeMap =
    (OnlyPermanent ::
       stdout (verify (List.filter
                 (λ scheme, bool_decide (Scheme_Status scheme = Permanent))
                 SchemeMap)),
     result (verify (List.filter
                 (λ scheme, bool_decide (Scheme_Status scheme = Permanent))
                 SchemeMap))).
Proof. unfold main. cbv zeta. apply Printf_bind. Qed.

Lemma elem_of_permanent r SchemeMap :
  r ∈ List.filter (λ scheme, bool_decide (Scheme_Status scheme = Permanent))
        SchemeMap ↔
  r ∈ SchemeMap ∧ Scheme_Status r = Permanent.
Proof.
  rewrite !list_elem_of_In, List.filter_In, bool_decide_eq_true. tauto.
Qed.

(** X17.  The tool checks the permanent schemes only: it succeeds with
    nothing but its notice and the two announcements exactly when, among
    the records of status Permanent, no defanged form is a name and no
    two share a defanged form; records of any other status have no part
    in the verdict, whatever they collide with. *)
Theorem X17_main_checks_permanent_schemes_only (SchemeMap : list Scheme) :
  main SchemeMap =
    ([OnlyPermanent; CheckingNotValid; CheckingOneToOne], Returned tt) ↔
  (∀ r k, r ∈ SchemeMap → k ∈ SchemeMap →
          Scheme_Status r = Permanent → Scheme_Status k = Permanent →
          Scheme_DefangedScheme r ≠ Scheme_Scheme k) ∧
  NoDup (Scheme_DefangedScheme <$>
           List.filter (λ scheme, bool_decide (Scheme_Status scheme = Permanent))
             SchemeMap).
Proof.
  rewrite main_unfold.
  set (permanentSchemes := List.filter _ SchemeMap).
  assert ((∀ r k, r ∈ SchemeMap → k ∈ SchemeMap →
             Scheme_Status r = Permanent → Scheme_Status k = Permanent →
             Scheme_DefangedScheme r ≠ Scheme_Scheme k) ↔
          (∀ r k, r ∈ permanentSchemes → k ∈ permanentSchemes →
             Scheme_DefangedScheme r ≠ Scheme_Scheme k)) as ->.
  { unfold permanentSchemes. split.
    - intros H r k [Hr Sr]%elem_of_permanent [Hk Sk]%elem_of_permanent. eauto.
    - intros H r k Hr Hk Sr Sk. apply H; by apply elem_of_permanent. }
  rewrite <- verify_silent_iff.
  destruct (verify permanentSchemes) as [out r]. cbn [stdout result fst snd].
  split; [intros [= -> ->]|intros [= -> ->]]; done.
Qed.

(* ================================================================== *)
(** ** The Python literals of the dump tool *)

Lemma len_app s t : len (s +:+ t) = len s + len t.
Proof. unfold len. rewrite length_append. lia. Qed.

Lemma len_nonneg s : 0 <= len s.
Proof. unfold len. lia. Qed.

Lemma len_quoted str : len (quoted str) = len str + 3.
Proof.
  unfold quoted. rewrite !len_app.
  change (len dquote) with 1. change (len ",") with 1. lia.
Qed.

Lemma lineOf_snoc cur str :
  lineOf (cur ++ [str]) = lineOf cur +:+ " " +:+ quoted str.
Proof.
  unfold lineOf. rewrite app_assoc3. f_equal.
  induction cur as [|x cur IH]; cbn [app fold_right].
  - by rewrite app_empty_l, app_empty_r.
  - by rewrite IH, !app_assoc3.
Qed.

Lemma lineOf_single str :
  lineOf [str] = (EmptyString +:+ Repeat " " indentNumber) +:+ " " +:+ quoted str.
Proof.
  change [str] with ([] ++ [str]). rewrite lineOf_snoc.
  unfold lineOf. cbn [fold_right]. by rewrite app_empty_l, app_empty_r.
Qed.

Lemma len_lineOf_pos cur : 0 < len (lineOf cur).
Proof.
  unfold lineOf. rewrite len_app.
  pose proof (len_nonneg
    (fold_right (λ str rest, " " +:+ quoted str +:+ rest) EmptyString cur)).
  change (len (Repeat " " indentNumber)) with 4. lia.
Qed.

Lemma leadingLine_snoc processed str :
  processed ≠ [] → leadingLine (processed ++ [str]) = leadingLine processed.
Proof. by destruct processed. Qed.

(** A line is started: the open line is closed (when there is one to
    close), and the element opens the next. *)
Lemma pyListStep_new_line st str :
  currentLineLength st = len (currentLine st) →
  currentLineLength st + len (quoted str) > maxLineLength →
  pyListStep st str =
    mkListState (lines st ++ [currentLine st]) (lineOf [str])
      (len (lineOf [str])).
Proof.
  intros Hl Hover. unfold pyListStep. cbv zeta.
  destruct (Z.gtb_spec (currentLineLength st + len (quoted str)) maxLineLength);
    [|lia].
  cbn [currentLine lines currentLineLength]. rewrite lineOf_single.
  change (len EmptyString =? 0) with true. cbv iota.
  cbn [currentLine lines currentLineLength].
  change (len (EmptyString +:+ Repeat " " indentNumber) >? 0) with true.
  cbv iota. cbn [currentLine lines currentLineLength].
  f_equal. rewrite !len_app.
  change (len EmptyString) with 0.
  change (len (Repeat " " indentNumber)) with 4.
  change (len " ") with 1. change (Z.of_nat indentNumber) with 4. lia.
Qed.

(** The very first element opens the first line. *)
Lemma pyListStep_first st str :
  currentLine st = EmptyString →
  currentLineLength st = 0 →
  ¬ (len (quoted str) > maxLineLength) →
  pyListStep st str =
    mkListState (lines st) (lineOf [str]) (len (lineOf [str])).
Proof.
  intros Hc Hl Hfit. unfold pyListStep. cbv zeta. rewrite Hl, Hc.
  destruct (Z.gtb_spec (0 + len (quoted str)) maxLineLength); [lia|].
  rewrite Hc. change (len EmptyString =? 0) with true. cbv iota.
  cbn [currentLine lines currentLineLength]. rewrite lineOf_single.
  change (len (EmptyString +:+ Repeat " " indentNumber) >? 0) with true.
  cbv iota. cbn [currentLine lines currentLineLength].
  f_equal. rewrite !len_app.
  change (len EmptyString) with 0.
  change (len (Repeat " " indentNumber)) with 4.
  change (len " ") with 1. change (Z.of_nat indentNumber) with 4. lia.
Qed.

(** The element fits: it goes on the open line after a space. *)
Lemma pyListStep_same_line st str :
  0 < len (currentLine st) →
  currentLineLength st = len (currentLine st) →
  ¬ (currentLineLength st + len (quoted str) > maxLineLength) →
  pyListStep st str =
    mkListState (lines st) (currentLine st +:+ " " +:+ quoted str)
      (len (currentLine st +:+ " " +:+ quoted str)).
Proof.
  intros Hpos Hl Hfit. unfold pyListStep. cbv zeta.
  destruct (Z.gtb_spec (currentLineLength st + len (quoted str)) maxLineLength);
    [lia|].
  destruct (Z.eqb_spec (len (currentLine st)) 0); [lia|].
  destruct (Z.gtb_spec (len (currentLine st)) 0); [|lia].
  cbn [currentLine lines currentLineLength].
  rewrite app_assoc3. f_equal. rewrite !len_app, Hl.
  change (len " ") with 1. lia.
Qed.

Lemma listInvariant_step processed st str :
  listInvariant processed st →
  listInvariant (processed ++ [str]) (pyListStep st str).
Proof.
  intros (groups & cur & Hp & Hg & Hlines & Hlen & Hcur).
  destruct Hcur as [[-> Hc]|[Hne Hc]].
  - (* nothing processed yet *)
    destruct groups as [|g groups]; [|by destruct g, cur; inversion Hg].
    destruct cur; [|done]. cbn in Hlines.
    rewrite Hc in Hlen. change (len EmptyString) with 0 in Hlen.
    destruct (decide (len (quoted str) > maxLineLength)) as [Hover|Hfit].
    + rewrite pyListStep_new_line; [|by rewrite Hlen, Hc|rewrite Hlen; lia].
      exists [], [str]. cbn [concat app fmap list_fmap leadingLine].
      destruct (Z.gtb_spec (len (quoted str)) maxLineLength); [|lia].
      rewrite Hlines, Hc. repeat split; try done. by right.
    + rewrite pyListStep_first by done.
      exists [], [str]. cbn [concat app fmap list_fmap leadingLine].
      destruct (Z.gtb_spec (len (quoted str)) maxLineLength); [lia|].
      rewrite Hlines. repeat split; try done. by right.
  - (* a line is open *)
    subst processed.
    assert (concat groups ++ cur ≠ []) as Hpne
      by (by destruct (concat groups), cur).
    unfold listInvariant. rewrite leadingLine_snoc by done.
    destruct (decide (currentLineLength st + len (quoted str) > maxLineLength))
      as [Hover|Hfit].
    + rewrite pyListStep_new_line by done.
      exists (groups ++ [cur]), [str].
      rewrite concat_app, fmap_app. cbn [concat fmap list_fmap lines currentLine
        currentLineLength].
      rewrite app_nil_r, Hlines, Hc, <- !app_assoc.
      split; [done|]. split; [apply Forall_app; split; [done|by constructor]|].
      split; [done|]. split; [done|]. by right.
    + rewrite pyListStep_same_line; [|rewrite Hc; apply len_lineOf_pos|done..].
      exists groups, (cur ++ [str]).
      cbn [lines currentLine currentLineLength].
      rewrite <- app_assoc, Hc, lineOf_snoc.
      split; [done|]. split; [done|]. split; [exact Hlines|].
      split; [done|]. right. split; [by destruct cur|done].
Qed.

Lemma listInvariant_fold strs :
  listInvariant strs (fold_left pyListStep strs (mkListState [] EmptyString 0)).
Proof.
  induction strs as [|str strs IH] using rev_ind.
  - exists [], []. split; [done|]. split; [constructor|].
    split; [done|]. split; [done|]. by left.
  - rewrite fold_left_app. cbn [fold_left]. by apply listInvariant_step.
Qed.

(** X18.  The layout of the list literal: the elements are cut, in
    order, into non-empty groups, one per line, and each line is the
    indent followed by a space and the quoted element for each element of
    its group; nothing is lost or repeated.  One empty line comes first
    when the first element alone does not fit on a line. *)
Theorem X18_list_literal_layout (strs : list string) :
  ∃ groups,
    concat groups = strs ∧
    Forall (λ g, g ≠ []) groups ∧
    pyListLines strs = leadingLine strs ++ (lineOf <$> groups).
Proof.
  destruct (listInvariant_fold strs)
    as (groups & cur & Hp & Hg & Hlines & Hlen & Hcur).
  unfold pyListLines. cbv zeta.
  destruct Hcur as [[-> Hc]|[Hne Hc]].
  - destruct groups as [|g groups]; [|by destruct g, cur; inversion Hg].
    exists []. rewrite Hc, Hlines. repeat split; try done.
  - exists (groups ++ [cur]).
    rewrite concat_app, fmap_app. cbn [concat fmap list_fmap].
    rewrite app_nil_r, <- Hp. split; [done|]. split.
    + apply Forall_app. split; [done|]. by constructor.
    + pose proof (len_lineOf_pos cur) as Hpos. rewrite Hc.
      destruct (Z.gtb_spec (len (lineOf cur)) 0); [|lia].
      by rewrite Hlines, <- app_assoc.
Qed.

Lemma len_zero s : len s = 0 → s = EmptyString.
Proof. destruct s; [done|]. unfold len. cbn. lia. Qed.

Lemma len_lineOf_single str : len (lineOf [str]) = len str + 8.
Proof.
  rewrite lineOf_single, !len_app, len_quoted.
  change (len EmptyString) with 0.
  change (len (Repeat " " indentNumber)) with 4.
  change (len " ") with 1. lia.
Qed.

Lemma width_step st str :
  len str <= 72 →
  currentLineLength st = len (currentLine st) →
  Forall (λ line, len line <= maxLineLength + 1) (lines st) →
  len (currentLine st) <= maxLineLength + 1 →
  let st' := pyListStep st str in
  currentLineLength st' = len (currentLine st') ∧
  Forall (λ line, len line <= maxLineLength + 1) (lines st') ∧
  len (currentLine st') <= maxLineLength + 1.
Proof.
  intros Hstr Hl Hlines Hcur. cbv zeta. unfold maxLineLength in *.
  destruct (decide (currentLineLength st + len (quoted str) > maxLineLength))
    as [Hover|Hfit].
  - rewrite pyListStep_new_line by done. cbn [lines currentLine currentLineLength].
    rewrite len_lineOf_single. split; [done|]. split; [|lia].
    apply Forall_app. split; [done|]. by constructor.
  - destruct (decide (len (currentLine st) = 0)) as [Hz|Hz].
    + rewrite pyListStep_first; [|by apply len_zero|lia|].
      2:{ rewrite Hl, Hz in Hfit. lia. }
      cbn [lines currentLine currentLineLength].
      rewrite len_lineOf_single. split; [done|]. split; [done|lia].
    + pose proof (len_nonneg (currentLine st)).
      rewrite pyListStep_same_line; [|lia|done..].
      cbn [lines currentLine currentLineLength].
      split; [done|]. split; [done|].
      rewrite !len_app. change (len " ") with 1.
      unfold maxLineLength in Hfit. lia.
Qed.

Lemma width_fold strs :
  Forall (λ str, len str <= 72) strs →
  let st := fold_left pyListStep strs (mkListState [] EmptyString 0) in
  currentLineLength st = len (currentLine st) ∧
  Forall (λ line, len line <= maxLineLength + 1) (lines st) ∧
  len (currentLine st) <= maxLineLength + 1.
Proof.
  induction strs as [|str strs IH] using rev_ind; intros H.
  - cbn. split; [done|]. split; [constructor|done].
  - apply Forall_app in H as [Hstrs Hstr]. apply Forall_inv in Hstr.
    destruct (IH Hstrs) as (Hl & Hlines & Hcur).
    cbv zeta. rewrite fold_left_app. cbn [fold_left].
    by apply width_step.
Qed.

(** X19.  The width of the list literal: when no element is longer than
    72 bytes, no line is longer than 80 bytes, one more than the maximum
    line length: the test for a new line does not count the space that
    goes before the element. *)
Theorem X19_list_literal_width (strs : list string) :
  Forall (λ str, len str <= 72) strs →
  Forall (λ line, len line <= maxLineLength + 1) (pyListLines strs).
Proof.
  intros H. destruct (width_fold strs H) as (_ & Hlines & Hcur).
  unfold pyListLines. cbv zeta.
  destruct (len (currentLine _) >? 0); [|done].
  apply Forall_app. split; [done|]. by constructor.
Qed.

Lemma X19_witness_eighty :
  Forall (λ line, len line <= maxLineLength + 1)
    (pyListLines ["abcdefg";
       "abcdefghijklmnopqrstuvwxyzabcdefghijklmnopqrstuvwxyzabcdefghi"]).
Proof.
  apply (X19_list_literal_width ["abcdefg";
       "abcdefghijklmnopqrstuvwxyzabcdefghijklmnopqrstuvwxyzabcdefghi"]).
  repeat constructor; vm_compute; discriminate.
Defined.

(** The bound is reached: a line of 80 bytes. *)
Example pyListLines_eighty :
  len <$> pyListLines ["abcdefg";
       "abcdefghijklmnopqrstuvwxyzabcdefghijklmnopqrstuvwxyzabcdefghi"] = [80].
Proof. reflexivity. Qed.

(* ------------------------------------------------------------------ *)
(** *** The dictionary literal *)

Lemma pyDictLines_zip i keys values :
  (length keys + i)%nat = length values →
  pyDictLines i keys values =
    Returned (zip_with pyDictLine keys (drop i values)).
Proof.
  revert i. induction keys as [|key keys IH]; intros i Hlen; [done|].
  cbn [pyDictLines length] in *.
  destruct (lookup_lt_is_Some_2 values i) as [value Hv]; [lia|].
  rewrite Hv, IH by lia. by rewrite (drop_S _ _ _ Hv).
Qed.

(** X20.  [constructPyDict] fails exactly when the two slices differ in
    length: it then prints the error with both lengths and exits with
    status 1.  Otherwise it prints nothing, never reads outside
    [values], and returns the literal with one line per key, each key
    with the value of the same index. *)
Theorem X20_dict_literal
    (unicodeCase : string → string) (keys values : list string) (varName : string) :
  match constructPyDict unicodeCase keys values varName with
  | (out, Exited code) =>
      length keys ≠ length values ∧ code = 1 ∧
      out = [pyDictLengthError keys values]
  | (out, Returned text) =>
      length keys = length values ∧ out = [] ∧
      text = toScreamingSnake unicodeCase varName +:+ " = {" +:+ newline
               +:+ Join (zip_with pyDictLine keys values) newline
               +:+ newline +:+ "}"
  end.
Proof.
  unfold constructPyDict.
  destruct (Nat.eqb_spec (length keys) (length values)) as [E|E]; cbn [negb].
  - rewrite pyDictLines_zip by lia. by rewrite drop_0.
  - done.
Qed.

Lemma zip_name_defanged schemes :
  zip_with pyDictLine (Scheme_Scheme <$> schemes)
    (Scheme_DefangedScheme <$> schemes) =
  (λ scheme, pyDictLine (Scheme_Scheme scheme) (Scheme_DefangedScheme scheme))
    <$> schemes.
Proof.
  induction schemes as [|scheme schemes IH]; [done|]. cbn. by rewrite <- IH.
Qed.

(** X21.  [constructPyDefangSchemeDict] never fails: for every slice of
    schemes it prints nothing and returns the literal with one line per
    scheme, the name with the defanged form of the same record. *)
Theorem X21_defang_dict_never_fails
    (unicodeCase : string → string) (schemes : list Scheme) (varName : string) :
  constructPyDefangSchemeDict unicodeCase schemes varName =
    ([], Returned
           (toScreamingSnake unicodeCase varName +:+ " = {" +:+ newline
              +:+ Join ((λ scheme, pyDictLine (Scheme_Scheme scheme)
                                     (Scheme_DefangedScheme scheme)) <$> schemes)
                    newline
              +:+ newline +:+ "}")).
Proof.
  unfold constructPyDefangSchemeDict, constructPyDict. cbv zeta.
  rewrite !length_fmap, Nat.eqb_refl. cbn [negb].
  rewrite pyDictLines_zip by (rewrite !length_fmap; lia).
  by rewrite drop_0, zip_name_defanged.
Qed.

(* ------------------------------------------------------------------ *)
(** *** Names of Python constants *)

Lemma is_ascii_map_bytes f s :
  (∀ c, byte_val c < 0x80 → byte_val (f c) < 0x80) →
  is_ascii s = true → is_ascii (map_bytes f s) = true.
Proof.
  intros Hf. induction s as [|c s IH]; [done|]. cbn [is_ascii map_bytes].
  intros [Hc Hs]%andb_true_iff. apply Z.ltb_lt in Hc.
  rewrite IH by done. rewrite andb_true_r. apply Z.ltb_lt. by apply Hf.
Qed.

Lemma camel_unfold c1 c2 t2 :
  camelReplaceAllString (String c1 (String c2 t2)) =
    if is_lower c1 && is_upper c2
    then String c1 (String "_"%char (String c2 (camelReplaceAllString t2)))
    else String c1 (camelReplaceAllString (String c2 t2)).
Proof. reflexivity. Qed.

(** Induction that follows the two ways the search moves on. *)
Lemma camel_ind (P : string → Prop) :
  P EmptyString →
  (∀ c, P (String c EmptyString)) →
  (∀ c1 c2 t2, P t2 → P (String c2 t2) → P (String c1 (String c2 t2))) →
  ∀ s, P s.
Proof.
  intros H0 H1 H2 s.
  assert (P s ∧ ∀ c, P (String c s)) as [? _]; [|done].
  induction s as [|c s [IH1 IH2]]; [by split|].
  split; [apply IH2|]. intros c'. by apply H2.
Qed.

Lemma is_ascii_cons c s :
  is_ascii (String c s) = true ↔ byte_val c < 0x80 ∧ is_ascii s = true.
Proof. cbn [is_ascii]. rewrite andb_true_iff, Z.ltb_lt. tauto. Qed.

Lemma is_ascii_camel s :
  is_ascii s = true → is_ascii (camelReplaceAllString s) = true.
Proof.
  induction s as [| |c1 c2 t2 IH2 IH1] using camel_ind; [done..|].
  rewrite camel_unfold. intros [Hc1 [Hc2 Ht]%is_ascii_cons]%is_ascii_cons.
  destruct (is_lower c1 && is_upper c2).
  - rewrite !is_ascii_cons. repeat split; try done. by apply IH2.
  - rewrite is_ascii_cons. split; [done|]. apply IH1. by apply is_ascii_cons.
Qed.

Lemma forall_bytes_cons p c s :
  forall_bytes p (String c s) = true ↔ p c = true ∧ forall_bytes p s = true.
Proof. cbn [forall_bytes]. by rewrite andb_true_iff. Qed.

Lemma camel_no_lower s :
  forall_bytes (λ c, negb (is_lower c)) s = true →
  camelReplaceAllString s = s.
Proof.
  induction s as [| |c1 c2 t2 IH2 IH1] using camel_ind; [done..|].
  rewrite camel_unfold. intros [Hc1 H]%forall_bytes_cons.
  apply negb_true_iff in Hc1. rewrite Hc1. cbn [andb]. by rewrite IH1.
Qed.

Lemma map_bytes_id f p s :
  (∀ c, p c = true → f c = c) →
  forall_bytes p s = true → map_bytes f s = s.
Proof.
  intros Hf. induction s as [|c s IH]; [done|].
  intros [Hc Hs]%forall_bytes_cons. cbn [map_bytes]. by rewrite Hf, IH.
Qed.

Lemma forall_bytes_map_bytes (p : ascii → bool) f s :
  (∀ c, p (f c) = true) → forall_bytes p (map_bytes f s) = true.
Proof.
  intros Hf. induction s as [|c s IH]; [done|].
  cbn [map_bytes]. by apply forall_bytes_cons.
Qed.

Lemma forall_bytes_impl (p q : ascii → bool) s :
  (∀ c, p c = true → q c = true) →
  forall_bytes p s = true → forall_bytes q s = true.
Proof.
  intros Hpq. induction s as [|c s IH]; [done|].
  rewrite !forall_bytes_cons. intros [? ?]. auto.
Qed.

Lemma forall_bytes_map_bytes_keep (p q : ascii → bool) f s :
  (∀ c, q c = true → p (f c) = true) →
  forall_bytes q s = true → forall_bytes p (map_bytes f s) = true.
Proof.
  intros Hf. induction s as [|c s IH]; [done|].
  cbn [map_bytes]. rewrite !forall_bytes_cons. intros [? ?]. auto.
Qed.

Lemma upper_byte_shape c :
  is_lower (upper_byte c) = false ∧
  (Ascii.eqb c " "%char = false → Ascii.eqb (upper_byte c) " "%char = false) ∧
  (byte_val c < 0x80 → byte_val (upper_byte c) < 0x80).
Proof.
  unfold upper_byte. destruct (is_lower c) eqn:E; [|done].
  unfold is_lower in *. apply andb_true_iff in E as [E1%Z.leb_le E2%Z.leb_le].
  change (byte_val "a") with 97 in *. change (byte_val "z") with 122 in *.
  pose proof (byte_val_range c).
  assert (byte_val (byte_chr (byte_val c - 32)) = byte_val c - 32) as Hv
    by (apply byte_val_chr; lia).
  split; [|split].
  - rewrite Hv. apply andb_false_iff. left. apply Z.leb_gt. lia.
  - intros _. apply Ascii.eqb_neq. intros Heq.
    rewrite Heq in Hv. change (byte_val " ") with 32 in Hv. lia.
  - rewrite Hv. lia.
Qed.

Lemma spaces_shape c :
  Ascii.eqb (if Ascii.eqb c " " then "_" else c)%char " "%char = false ∧
  (byte_val c < 0x80 →
   byte_val (if Ascii.eqb c " " then "_" else c)%char < 0x80).
Proof. destruct (Ascii.eqb c " "%char) eqn:E; [done|]. by rewrite E. Qed.

(** X22.  On a 7-bit name [toScreamingSnake] gives a 7-bit name with no
    lower-case letter and no space, whatever the case tables are, and
    applying it again changes nothing. *)
Theorem X22_screaming_snake
    (unicodeCase : string → string) (input : string) :
  is_ascii input = true →
  is_ascii (toScreamingSnake unicodeCase input) = true ∧
  forall_bytes screaming (toScreamingSnake unicodeCase input) = true ∧
  toScreamingSnake unicodeCase (toScreamingSnake unicodeCase input) =
    toScreamingSnake unicodeCase input.
Proof.
  intros Hin.
  assert (is_ascii (spacesToUnderscores (camelReplaceAllString input)) = true)
    as Hsp.
  { apply is_ascii_map_bytes; [intros c; apply spaces_shape|].
    by apply is_ascii_camel. }
  assert (toScreamingSnake unicodeCase input =
          map_bytes upper_byte
            (spacesToUnderscores (camelReplaceAllString input))) as Eout.
  { unfold toScreamingSnake, ToUpper. cbv zeta. by rewrite Hsp. }
  assert (is_ascii (toScreamingSnake unicodeCase input) = true) as Hascii.
  { rewrite Eout. apply is_ascii_map_bytes; [intros c; apply upper_byte_shape|done]. }
  assert (forall_bytes screaming (toScreamingSnake unicodeCase input) = true)
    as Hscr.
  { rewrite Eout. unfold spacesToUnderscores.
    apply forall_bytes_map_bytes_keep
      with (q := λ c, negb (Ascii.eqb c " "%char)).
    - intros c Hc%negb_true_iff. unfold screaming.
      destruct (upper_byte_shape c) as (-> & -> & _); done.
    - apply forall_bytes_map_bytes. intros c.
      by destruct (spaces_shape c) as [-> _]. }
  split; [done|]. split; [done|].
  set (out := toScreamingSnake unicodeCase input) in *.
  assert (camelReplaceAllString out = out) as E1.
  { apply camel_no_lower. revert Hscr. apply forall_bytes_impl.
    unfold screaming. by intros c [? _]%andb_true_iff. }
  assert (spacesToUnderscores out = out) as E2.
  { unfold spacesToUnderscores. revert Hscr. apply map_bytes_id.
    unfold screaming. by intros c [_ ->%negb_true_iff]%andb_true_iff. }
  assert (map_bytes upper_byte out = out) as E3.
  { revert Hscr. apply map_bytes_id. unfold screaming, upper_byte.
    by intros c [->%negb_true_iff _]%andb_true_iff. }
  unfold toScreamingSnake, ToUpper. cbv zeta.
  by rewrite E1, E2, Hascii, E3.
Qed.

Lemma X22_witness_map_name :
  is_ascii (toScreamingSnake id "schemesDefangedMap") = true ∧
  forall_bytes screaming (toScreamingSnake id "schemesDefangedMap") = true ∧
  toScreamingSnake id (toScreamingSnake id "schemesDefangedMap") =
    toScreamingSnake id "schemesDefangedMap".
Proof. apply (X22_screaming_snake id "schemesDefangedMap"). reflexivity. Defined.

Example toScreamingSnake_names :
  toScreamingSnake id "schemes" = "SCHEMES" ∧
  toScreamingSnake id "schemesDefangedMap" = "SCHEMES_DEFANGED_MAP".
Proof. split; reflexivity. Qed.

(* ================================================================== *)
(** ** Cleaning the rows of the scheme table *)

Lemma span_spec p s run rest :
  writeconsts.span p s = (run, rest) →
  s = run +:+ rest ∧ forall_bytes p run = true.
Proof.
  revert run rest. induction s as [|c s IH]; intros run rest.
  - by intros [= <- <-].
  - cbn [writeconsts.span]. destruct (p c) eqn:Hc.
    + destruct (writeconsts.span p s) as [run' rest'] eqn:E.
      intros [= <- <-]. destruct (IH run' rest' eq_refl) as [-> Hrun].
      split; [done|]. cbn [forall_bytes]. by rewrite Hc.
    + by intros [= <- <-].
Qed.

Lemma span_all p s :
  forall_bytes p s = true → writeconsts.span p s = (s, EmptyString).
Proof.
  induction s as [|c s IH]; [done|].
  intros [Hc Hs]%forall_bytes_cons. cbn [writeconsts.span].
  by rewrite Hc, IH.
Qed.

Lemma span_app p run rest :
  forall_bytes p run = true →
  match rest with String c _ => p c = false | EmptyString => True end →
  writeconsts.span p (run +:+ rest) = (run, rest).
Proof.
  intros Hrun Hrest. induction run as [|c run IH].
  - rewrite app_empty_l. destruct rest as [|d rest]; [done|].
    cbn [writeconsts.span]. by rewrite Hrest.
  - apply forall_bytes_cons in Hrun as [Hc Hrun].
    rewrite app_cons. cbn [writeconsts.span]. by rewrite Hc, IH.
Qed.

Lemma all_in_class_forall_bytes re s :
  all_in_class re s = forall_bytes (regexp.in_class re) s.
Proof. induction s as [|c s IH]; [done|]. cbn. by rewrite IH. Qed.

(** The bytes of the scheme class are 7-bit, and lowering one gives a
    byte of the class that is not an upper-case letter. *)
Lemma scheme_class_bytes c :
  regexp.in_class SCHEME_PATTERN c = true →
  byte_val c < 0x80 ∧
  regexp.in_class SCHEME_PATTERN (lower_byte c) = true ∧
  is_upper (lower_byte c) = false.
Proof.
  unfold regexp.in_class at 1. rewrite existsb_exists.
  intros (d & Hd & <-%Ascii.eqb_eq).
  assert (forallb (λ d, (byte_val d <? 0x80)
                        && regexp.in_class SCHEME_PATTERN (lower_byte d)
                        && negb (is_upper (lower_byte d)))
                  SCHEME_PATTERN = true) as Hall by (vm_compute; reflexivity).
  rewrite forallb_forall in Hall. specialize (Hall c Hd). cbv beta in Hall.
  apply andb_true_iff in Hall as [[Hlt Hin]%andb_true_iff Hup].
  apply Z.ltb_lt in Hlt. apply negb_true_iff in Hup. done.
Qed.

Lemma token_lowered (unicodeCase : string → string) token :
  token ≠ EmptyString →
  all_in_class SCHEME_PATTERN token = true →
  let name := ToLower unicodeCase token in
  name = map_bytes lower_byte token ∧
  is_token name = true ∧
  is_ascii name = true ∧
  forall_bytes (λ c, negb (is_upper c)) name = true.
Proof.
  intros Hne Hall. cbv zeta.
  assert (is_ascii token = true) as Hascii.
  { clear Hne. induction token as [|c t IH]; [done|].
    cbn [all_in_class] in Hall. apply andb_true_iff in Hall as [Hc Ht].
    apply is_ascii_cons. split; [by apply scheme_class_bytes|by apply IH]. }
  assert (ToLower unicodeCase token = map_bytes lower_byte token) as ->
    by (unfold ToLower; by rewrite Hascii).
  split; [done|]. split; [|split].
  - unfold is_token. apply andb_true_iff. split.
    + destruct token; [done|]. done.
    + clear Hne Hascii. induction token as [|c t IH]; [done|].
      cbn [all_in_class map_bytes] in *.
      apply andb_true_iff in Hall as [Hc Ht].
      apply andb_true_iff. split; [by apply scheme_class_bytes|by apply IH].
  - clear Hne. induction token as [|c t IH]; [done|].
    cbn [all_in_class map_bytes] in *.
    apply andb_true_iff in Hall as [Hc Ht].
    apply is_ascii_cons in Hascii as [Hb Hascii].
    apply is_ascii_cons. split; [|by apply IH].
    destruct (scheme_class_bytes c Hc) as (_ & Hl & _).
    by apply scheme_class_bytes in Hl as [? _].
  - clear Hne Hascii. induction token as [|c t IH]; [done|].
    cbn [all_in_class map_bytes] in *.
    apply andb_true_iff in Hall as [Hc Ht].
    apply forall_bytes_cons. split; [|by apply IH].
    destruct (scheme_class_bytes c Hc) as (_ & _ & ->). done.
Qed.

Lemma FindStringSubmatch_shape s matches :
  writeconsts.FindStringSubmatch s = Some matches →
  ∃ token notes,
    matches = [s; token; notes] ∧
    token ≠ EmptyString ∧
    all_in_class SCHEME_PATTERN token = true.
Proof.
  unfold writeconsts.FindStringSubmatch.
  destruct (writeconsts.span (regexp.in_class SCHEME_PATTERN) s)
    as [token rest] eqn:E.
  apply span_spec in E as [_ Hall].
  rewrite <- all_in_class_forall_bytes in Hall.
  destruct (String.eqb_spec token EmptyString) as [|Hne]; [done|].
  destruct (String.eqb rest EmptyString).
  { intros [= <-]. eauto. }
  destruct (writeconsts.span writeconsts.is_space rest) as [spaces rest'].
  destruct (String.eqb spaces EmptyString); [done|].
  destruct rest' as [|open inside]; [done|].
  destruct (writeconsts.unsnoc inside) as [[notes close]|]; [|done].
  destruct (_ && _); [|done]. intros [= <-]. eauto.
Qed.

Lemma cleanScheme_unfold (unicodeCase : string → string) scheme token notes :
  writeconsts.FindStringSubmatch
    (writeconsts.Scheme_Scheme (writeconsts.cleanNulls scheme)) =
    Some [writeconsts.Scheme_Scheme (writeconsts.cleanNulls scheme); token; notes] →
  writeconsts.cleanScheme unicodeCase scheme =
    ([], Returned
           (writeconsts.setScheme
              (if negb (String.eqb notes EmptyString)
               then writeconsts.setNotes
                      (writeconsts.setScheme (writeconsts.cleanNulls scheme) token)
                      notes
               else writeconsts.setScheme (writeconsts.cleanNulls scheme) token)
              (ToLower unicodeCase token))).
Proof.
  intros H. unfold writeconsts.cleanScheme. cbv zeta. rewrite H.
  cbn [length Nat.eqb Nat.ltb Nat.leb lookup list_lookup].
  by destruct (negb (String.eqb notes EmptyString)).
Qed.

(** X23.  Every row that [cleanScheme] accepts leaves it with a name that
    is a scheme token, 7-bit and without upper-case letters; nothing is
    printed, and the columns other than the name and the notes are those
    of the row with its null marks emptied. *)
Theorem X23_cleaned_name_is_a_lowercase_token
    (unicodeCase : string → string) (scheme cleaned : writeconsts.Scheme)
    (out : list string) :
  writeconsts.cleanScheme unicodeCase scheme = (out, Returned cleaned) →
  out = [] ∧
  is_token (writeconsts.Scheme_Scheme cleaned) = true ∧
  is_ascii (writeconsts.Scheme_Scheme cleaned) = true ∧
  forall_bytes (λ c, negb (is_upper c)) (writeconsts.Scheme_Scheme cleaned) = true ∧
  writeconsts.Scheme_Template cleaned =
    writeconsts.nullToEmpty (writeconsts.Scheme_Template scheme) ∧
  writeconsts.Scheme_Description cleaned =
    writeconsts.nullToEmpty (writeconsts.Scheme_Description scheme) ∧
  writeconsts.Scheme_Status cleaned =
    writeconsts.nullToEmpty (writeconsts.Scheme_Status scheme) ∧
  writeconsts.Scheme_WellKnownUriSupport cleaned =
    writeconsts.nullToEmpty (writeconsts.Scheme_WellKnownUriSupport scheme) ∧
  writeconsts.Scheme_Reference cleaned =
    writeconsts.nullToEmpty (writeconsts.Scheme_Reference scheme).
Proof.
  destruct (writeconsts.FindStringSubmatch
              (writeconsts.Scheme_Scheme (writeconsts.cleanNulls scheme)))
    as [matches|] eqn:E.
  - destruct (FindStringSubmatch_shape _ _ E) as (token & notes & -> & Hne & Hall).
    rewrite (cleanScheme_unfold unicodeCase scheme token notes E).
    intros [= <- <-].
    destruct (token_lowered unicodeCase token Hne Hall) as (_ & Ht & Ha & Hu).
    split; [done|].
    by destruct (negb (String.eqb notes EmptyString)).
  - unfold writeconsts.cleanScheme. cbv zeta. by rewrite E.
Qed.

Lemma X23_witness_shttp :
  let row := writeconsts.mkScheme "shttp (OBSOLETE)" "-" "Secure HTTP"
               "Permanent" "-" "[RFC2660]" "-" in
  let cleaned := writeconsts.mkScheme "shttp" "" "Secure HTTP"
                   "Permanent" "" "[RFC2660]" "OBSOLETE" in
  [] = ([] : list string) ∧
  is_token (writeconsts.Scheme_Scheme cleaned) = true ∧
  is_ascii (writeconsts.Scheme_Scheme cleaned) = true ∧
  forall_bytes (λ c, negb (is_upper c)) (writeconsts.Scheme_Scheme cleaned) = true ∧
  writeconsts.Scheme_Template cleaned =
    writeconsts.nullToEmpty (writeconsts.Scheme_Template row) ∧
  writeconsts.Scheme_Description cleaned =
    writeconsts.nullToEmpty (writeconsts.Scheme_Description row) ∧
  writeconsts.Scheme_Status cleaned =
    writeconsts.nullToEmpty (writeconsts.Scheme_Status row) ∧
  writeconsts.Scheme_WellKnownUriSupport cleaned =
    writeconsts.nullToEmpty (writeconsts.Scheme_WellKnownUriSupport row) ∧
  writeconsts.Scheme_Reference cleaned =
    writeconsts.nullToEmpty (writeconsts.Scheme_Reference row).
Proof.
  intros row cleaned.
  apply (X23_cleaned_name_is_a_lowercase_token id row cleaned []).
  reflexivity.
Defined.

Lemma token_not_null token :
  is_token token = true → token ≠ "-" →
  writeconsts.nullToEmpty token = token ∧
  token ≠ EmptyString ∧ all_in_class SCHEME_PATTERN token = true.
Proof.
  unfold is_token, writeconsts.nullToEmpty.
  intros [Hne Hall]%andb_true_iff Hnull.
  destruct (String.eqb_spec token "-"); [done|].
  destruct (String.eqb_spec token EmptyString); [done|]. done.
Qed.

(** X24.  A row whose name is a scheme token other than the null mark is
    accepted: its name is lowered byte by byte and its other columns have
    their null marks emptied. *)
Theorem X24_token_rows_are_accepted
    (unicodeCase : string → string) (scheme : writeconsts.Scheme) :
  is_token (writeconsts.Scheme_Scheme scheme) = true →
  writeconsts.Scheme_Scheme scheme ≠ "-" →
  writeconsts.cleanScheme unicodeCase scheme =
    ([], Returned
           (writeconsts.setScheme (writeconsts.cleanNulls scheme)
              (map_bytes lower_byte (writeconsts.Scheme_Scheme scheme)))).
Proof.
  intros Htok Hnull.
  destruct (token_not_null _ Htok Hnull) as (Hkeep & Hne & Hall).
  rewrite (cleanScheme_unfold unicodeCase scheme
             (writeconsts.Scheme_Scheme scheme) EmptyString).
  - cbn [String.eqb negb].
    by destruct (token_lowered unicodeCase _ Hne Hall) as (-> & _).
  - cbn [writeconsts.cleanNulls writeconsts.Scheme_Scheme]. rewrite Hkeep.
    unfold writeconsts.FindStringSubmatch.
    rewrite span_all by (by rewrite <- all_in_class_forall_bytes).
    destruct (String.eqb_spec (writeconsts.Scheme_Scheme scheme) EmptyString);
      done.
Qed.

Lemma X24_witness_HTTP :
  writeconsts.cleanScheme id
    (writeconsts.mkScheme "HTTP" "-" "-" "Permanent" "-" "-" "-") =
    ([], Returned
           (writeconsts.setScheme
              (writeconsts.cleanNulls
                 (writeconsts.mkScheme "HTTP" "-" "-" "Permanent" "-" "-" "-"))
              (map_bytes lower_byte "HTTP"))).
Proof.
  apply (X24_token_rows_are_accepted id
           (writeconsts.mkScheme "HTTP" "-" "-" "Permanent" "-" "-" "-"));
    [reflexivity|discriminate].
Defined.

(** X25.  [cleanScheme] has one way to fail: when the name of the row,
    its null mark emptied, is not a token with an optional note in
    parentheses, it prints that the scheme is invalid and exits with
    status 1.  It never reads outside the slice of matches and never
    reports unhandled groups; when it returns it has printed nothing. *)
Theorem X25_cleanScheme_fails_in_one_way
    (unicodeCase : string → string) (scheme : writeconsts.Scheme) :
  match writeconsts.cleanScheme unicodeCase scheme with
  | (out, Exited code) =>
      code = 1 ∧
      out = [writeconsts.invalidSchemeError
               (writeconsts.nullToEmpty (writeconsts.Scheme_Scheme scheme))] ∧
      writeconsts.FindStringSubmatch
        (writeconsts.nullToEmpty (writeconsts.Scheme_Scheme scheme)) = None
  | (out, Returned _) => out = []
  end.
Proof.
  destruct (writeconsts.FindStringSubmatch
              (writeconsts.Scheme_Scheme (writeconsts.cleanNulls scheme)))
    as [matches|] eqn:E.
  - destruct (FindStringSubmatch_shape _ _ E) as (token & notes & -> & _).
    by rewrite (cleanScheme_unfold unicodeCase scheme token notes E).
  - unfold writeconsts.cleanScheme. cbv zeta. by rewrite E.
Qed.

(** A row without a name, or with the null mark for a name, is refused. *)
Example cleanScheme_null_name :
  writeconsts.cleanScheme id
    (writeconsts.mkScheme "-" "-" "-" "Permanent" "-" "-" "-") =
    ([writeconsts.invalidSchemeError ""], Exited 1).
Proof. reflexivity. Qed.

Lemma unsnoc_snoc s c : writeconsts.unsnoc (s +:+ String c EmptyString) = Some (s, c).
Proof.
  induction s as [|d s IH]; [done|].
  rewrite app_cons. cbn [writeconsts.unsnoc]. by rewrite IH.
Qed.

Lemma space_not_in_class c :
  writeconsts.is_space c = true → regexp.in_class SCHEME_PATTERN c = false.
Proof.
  unfold writeconsts.is_space. rewrite !orb_true_iff, !Ascii.eqb_eq.
  intros [[[[->| ->]| ->]| ->]| ->]; reflexivity.
Qed.

Lemma eqb_app_nonempty s t :
  s ≠ EmptyString → String.eqb (s +:+ t) EmptyString = false.
Proof. destruct s; [done|]. by rewrite app_cons. Qed.

(** X26.  The annotated form of a name: a scheme token, white space and a
    note in parentheses, the note not empty and free of line feeds.  The
    row is accepted, the token, lowered, becomes the name and the note
    replaces the notes of the row. *)
Theorem X26_annotated_names
    (unicodeCase : string → string) (scheme : writeconsts.Scheme)
    (token spaces notes : string) :
  writeconsts.Scheme_Scheme scheme =
    token +:+ spaces +:+ "(" +:+ notes +:+ ")" →
  is_token token = true →
  spaces ≠ EmptyString →
  forall_bytes writeconsts.is_space spaces = true →
  notes ≠ EmptyString →
  occurs "010"%char notes = false →
  writeconsts.cleanScheme unicodeCase scheme =
    ([], Returned
           (writeconsts.setScheme
              (writeconsts.setNotes (writeconsts.cleanNulls scheme) notes)
              (map_bytes lower_byte token))).
Proof.
  intros Hraw Htok Hsp Hspaces Hnotes Hlf.
  apply andb_true_iff in Htok as [Hne%negb_true_iff%String.eqb_neq Hall].
  assert (writeconsts.nullToEmpty (writeconsts.Scheme_Scheme scheme) =
          writeconsts.Scheme_Scheme scheme) as Hkeep.
  { unfold writeconsts.nullToEmpty. rewrite Hraw.
    destruct (String.eqb_spec
                (token +:+ spaces +:+ "(" +:+ notes +:+ ")") "-") as [E|];
      [exfalso|done].
    destruct token as [|c token]; [done|].
    rewrite app_cons in E. injection E as _ E.
    destruct token as [|c' token]; [|by rewrite app_cons in E].
    rewrite app_empty_l in E.
    destruct spaces as [|d spaces]; [done|]. by rewrite app_cons in E. }
  rewrite (cleanScheme_unfold unicodeCase scheme token notes).
  - destruct (String.eqb_spec notes EmptyString); [done|]. cbn [negb].
    by destruct (token_lowered unicodeCase _ Hne Hall) as (-> & _).
  - cbn [writeconsts.cleanNulls writeconsts.Scheme_Scheme]. rewrite Hkeep, Hraw.
    unfold writeconsts.FindStringSubmatch.
    rewrite span_app.
    2:{ by rewrite <- all_in_class_forall_bytes. }
    2:{ destruct spaces as [|d spaces]; [done|]. rewrite app_cons.
        apply forall_bytes_cons in Hspaces as [Hd _].
        by apply space_not_in_class. }
    destruct (String.eqb_spec token EmptyString); [done|].
    rewrite (eqb_app_nonempty spaces _ Hsp).
    rewrite span_app; [|done|done].
    destruct (String.eqb_spec spaces EmptyString); [done|].
    rewrite app_cons, app_empty_l, unsnoc_snoc, Hlf. done.
Qed.

Lemma X26_witness_shttp :
  writeconsts.cleanScheme id
    (writeconsts.mkScheme "shttp (OBSOLETE)" "-" "-" "Permanent" "-" "-" "-") =
    ([], Returned
           (writeconsts.setScheme
              (writeconsts.setNotes
                 (writeconsts.cleanNulls
                    (writeconsts.mkScheme "shttp (OBSOLETE)" "-" "-"
                       "Permanent" "-" "-" "-"))
                 "OBSOLETE")
              (map_bytes lower_byte "shttp"))).
Proof.
  apply (X26_annotated_names id
           (writeconsts.mkScheme "shttp (OBSOLETE)" "-" "-" "Permanent" "-" "-" "-")
           "shttp" " " "OBSOLETE");
    solve [reflexivity | discriminate].
Defined.

(* ------------------------------------------------------------------ *)
(** *** The generator: a cleaned row and its defanged form *)

Lemma is_token_nonempty s : is_token s = true → 0 < len s.
Proof.
  unfold is_token. intros [Hne%negb_true_iff%String.eqb_neq _]%andb_true_iff.
  pose proof (len_nonneg s).
  destruct (Z.eq_dec (len s) 0) as [E%len_zero|]; [done|lia].
Qed.

(** X27.  The generator defangs the name of the row that [cleanScheme]
    returns.  This name is never empty; at a name of one byte
    [DefangScheme] ends the run with its error; for any other name it
    returns a form that shows a mark: a square bracket, or the marker at
    position 1 or 2. *)
Theorem X27_generated_forms_show_a_mark
    (unicodeCase : string → string) (row cleaned : writeconsts.Scheme)
    (out : list string) :
  writeconsts.cleanScheme unicodeCase row = (out, Returned cleaned) →
  let name := writeconsts.Scheme_Scheme cleaned in
  0 < len name ∧
  (len name = 1 → DefangScheme name = ([UnhandledLength1 name], Exited 1)) ∧
  (len name ≠ 1 →
   ∃ defanged, DefangScheme name = ([], Returned defanged) ∧
     (occurs "["%char defanged = true ∨
      char_at defanged 1 = Some "x"%char ∨
      char_at defanged 2 = Some "x"%char)).
Proof.
  intros Hclean name.
  assert (is_token name = true ∧ is_ascii name = true) as [Htok Hascii].
  { subst name. revert Hclean.
    destruct (writeconsts.FindStringSubmatch
                (writeconsts.Scheme_Scheme (writeconsts.cleanNulls row)))
      as [matches|] eqn:E.
    - destruct (FindStringSubmatch_shape _ _ E) as (token & notes & -> & Hne & Hall).
      rewrite (cleanScheme_unfold unicodeCase row token notes E).
      intros [= <- <-].
      by destruct (token_lowered unicodeCase token Hne Hall) as (_ & Ht & Ha & _).
    - unfold writeconsts.cleanScheme. cbv zeta. by rewrite E. }
  pose proof (is_token_nonempty name Htok) as Hpos.
  split; [done|]. split; [apply DefangScheme_length1|].
  intros Hlen. destruct (has_reserved name) eqn:Hr.
  - eexists. split; [by apply DefangScheme_reserved|]. left.
    exact (Wrapped_occurs _ _ _ (ReplaceAll_Wrapped name) Hr).
  - eexists. split; [by apply DefangScheme_marker|]. right.
    destruct (marker_positions_cases name) as (p & Hp & Hin & Hrange); [lia|].
    pose proof (char_at_defangAtPositions_marker name _ p Hascii Hin Hrange).
    destruct Hp as [-> | ->]; auto.
Qed.

Lemma X27_witness_shttp :
  let row := writeconsts.mkScheme "shttp (OBSOLETE)" "-" "Secure HTTP"
               "Permanent" "-" "[RFC2660]" "-" in
  let cleaned := writeconsts.mkScheme "shttp" "" "Secure HTTP"
                   "Permanent" "" "[RFC2660]" "OBSOLETE" in
  let name := writeconsts.Scheme_Scheme cleaned in
  0 < len name ∧
  (len name = 1 → DefangScheme name = ([UnhandledLength1 name], Exited 1)) ∧
  (len name ≠ 1 →
   ∃ defanged, DefangScheme name = ([], Returned defanged) ∧
     (occurs "["%char defanged = true ∨
      char_at defanged 1 = Some "x"%char ∨
      char_at defanged 2 = Some "x"%char)).
Proof.
  intros row cleaned.
  apply (X27_generated_forms_show_a_mark id row cleaned []).
  reflexivity.
Defined.
